(** * Latent Vacuum Engine: a shallow embedding of the three scripts

    The repository holds three Python scripts:
    - [latent_vacuum_engine.py]: the 1000-cycle engine with the one-shot
      [white_hole_triggered] latch (module [LVE] below);
    - [GHZ Entanglement Entropy and Area Scaling.py] ([ghz_state]) and
      [Latent Vacuum Engine v2.2.py], the seeded 100000-cycle engine with
      the [white_hole_count] counter, kept together in one file (module
      [LVE100k]);
    - [Wieger_3.py]: the area experiment ([latent_state], [area_per_mode]).

    Numbers.  In the engines Python floats are read as real numbers: [+],
    [-], [*], [/] and [**] are the exact operations of [R], [np.pi] is
    [PI], and comparisons are the order of [R].  This is the arithmetic
    the loops are reasoned about in; their statements use only what
    binary64 keeps on the values the loops reach.  The two numeric
    functions whose behaviour at the edge of binary64 matters
    ([update_mass], [apply_dce_drive]) are given a second time in module
    [F64], on binary64 floats and with the exceptions Python raises.
    Python integers are [Z]; [range(CYCLES)] is the list
    [seq 0 (Z.to_nat CYCLES)], so the loop index is a [nat].

    Constants.  The module-level constants of the scripts ([M_initial],
    [CYCLES], [M_PLANCK_CORE], ...) are the fields of one record [Params];
    [lve_params] and [lve100k_params] are the two sets the scripts ship.

    Randomness.  [np.random] is a global generator: its state is threaded
    through the loop, and the two calls the scripts make ([seed],
    [randint]) are the operations of the class [NumpyRandom]. *)

From Stdlib Require Import PrimFloat.
From Stdlib Require Import Reals Lra Lia ZArith String List Bool.
From Stdlib Require Import DecimalString.
Import ListNotations.
Open Scope R_scope.

(* A decimal float literal denotes the nearest binary64 value, as it does
   in Python. *)
Set Warnings "-inexact-float".

(** ** Constants of the scripts *)

Record Params : Type := mkParams {
  M_initial : R;              (* Planck masses *)
  N_MAX : Z;
  CYCLES : Z;
  T_HOM : R;                  (* HOM visibility = transmission *)
  DCE_DRIVE_BASE : R;
  dt : R;
  M_PLANCK_CORE : R;
  WHITE_HOLE_BURST_FREQ : R
}.

(** latent_vacuum_engine.py, lines 26-49. *)
Definition lve_params : Params :=
  {| M_initial := 1.0; N_MAX := 6; CYCLES := 1000; T_HOM := 0.8;
     DCE_DRIVE_BASE := 1e-6; dt := 1.0; M_PLANCK_CORE := 0.05;
     WHITE_HOLE_BURST_FREQ := 1.0 |}.

(** Latent Vacuum Engine v2.2.py (the seeded engine), PARAMETERS block. *)
Definition lve100k_params : Params :=
  {| M_initial := 1.0; N_MAX := 6; CYCLES := 100000; T_HOM := 0.8;
     DCE_DRIVE_BASE := 1e-6; dt := 1.0; M_PLANCK_CORE := 0.05;
     WHITE_HOLE_BURST_FREQ := 1.0 |}.

(** The scripts divide by [M ** 2] above the core, by [dt], and draw from
    [randint(0, N_MAX + 1)]: none of these raises when the constants are
    as the scripts (and the data model) have them, positive masses and
    time step and a non-negative mode bound. *)
Definition params_ok (p : Params) : Prop :=
  0 < M_initial p /\ 0 < M_PLANCK_CORE p /\ 0 < dt p /\ (0 <= N_MAX p)%Z.

(** [DCE_FACTOR = 1.0 / (8 * np.pi)] *)
Definition DCE_FACTOR : R := 1.0 / (8 * PI).

(** ** The global random generator *)

Class NumpyRandom : Type := {
  rng : Type;
  (* np.random.seed(s): the generator state the seed determines *)
  np_random_seed : Z -> rng;
  (* np.random.randint(low, high): the draw and the advanced state *)
  np_random_randint : Z -> Z -> rng -> Z * rng;
  randint_range : forall low high g,
    (low < high)%Z ->
    (low <= fst (np_random_randint low high g) < high)%Z
}.

(** ** Exceptions *)

Inductive exn : Type :=
| IndexError          (* qt.tensor on an empty operand list *)
| TypeError           (* adding quantum objects of different dims *)
| ZeroDivisionError   (* float division by zero *)
| OverflowError       (* a float power out of range *)
| InvalidInput.       (* the error the specification names for a rejected
                         mode count; no statement of the scripts raises it *)

Definition result (A : Type) : Type := (exn + A)%type.

Definition bind {A B : Type} (r : result A) (k : A -> result B) : result B :=
  match r with
  | inl e => inl e
  | inr a => k a
  end.

(** ** The part of qutip the scripts use *)

Module Qutip.

Inductive QobjType : Type := ket | bra | oper | other.

(** A quantum object: [dims] is the pair [dims[0]], [dims[1]]; [data]
    holds the amplitudes (all real here). *)
Record Qobj : Type := mkQobj {
  dims : list Z * list Z;
  data : list R
}.

Definition prod_dims (l : list Z) : Z := fold_right Z.mul 1%Z l.

(** [Qobj.type] is derived from [dims].  The side of total dimension 1 is
    looked for on [dims[0]] first, so a 1x1 object such as [fock(1, 0)] is
    not reported as a ['ket'] (the scripts only ever compare with
    ['ket']). *)
Definition type (q : Qobj) : QobjType :=
  if (prod_dims (fst (dims q)) =? 1)%Z then bra
  else if (prod_dims (snd (dims q)) =? 1)%Z then ket
  else if list_eq_dec Z.eq_dec (fst (dims q)) (snd (dims q)) then oper
  else other.

(** [qt.basis(N, n)]: the n-th basis vector of an N-level system. *)
Definition basis (N n : nat) : Qobj :=
  {| dims := ([Z.of_nat N], [1%Z]);
     data := map (fun i => if Nat.eqb i n then 1 else 0) (seq 0 N) |}.

(** [qt.fock] is [qt.basis]. *)
Definition fock (N n : nat) : Qobj := basis N n.

Definition kron (a b : list R) : list R :=
  flat_map (fun x => map (Rmult x) b) a.

(** The dims list of a product space.  A product of one-dimensional
    spaces is listed as [[1]] (qutip 5; qutip 4 lists one 1 per factor),
    so the product of kets has [dims[1] = [1]].  The scripts read
    [dims[0]] only. *)
Definition compound (l : list Z) : list Z :=
  if forallb (Z.eqb 1) l then [1%Z] else l.

Definition tensor2 (a b : Qobj) : Qobj :=
  {| dims := (compound (fst (dims a) ++ fst (dims b)),
              compound (snd (dims a) ++ snd (dims b)));
     data := kron (data a) (data b) |}.

(** [qt.tensor(qlist)]: reads [qlist[0]] first, so an empty list raises
    IndexError. *)
Definition tensor (qlist : list Qobj) : result Qobj :=
  match qlist with
  | [] => inl IndexError
  | q :: rest => inr (fold_left tensor2 rest q)
  end.

Fixpoint add_data (a b : list R) : list R :=
  match a, b with
  | x :: a', y :: b' => (x + y) :: add_data a' b'
  | _, _ => []
  end.

(** [a + b] on quantum objects: the dims must agree. *)
Definition add (a b : Qobj) : result Qobj :=
  if list_eq_dec Z.eq_dec (fst (dims a)) (fst (dims b)) then
    if list_eq_dec Z.eq_dec (snd (dims a)) (snd (dims b)) then
      inr {| dims := dims a; data := add_data (data a) (data b) |}
    else inl TypeError
  else inl TypeError.

Definition norm (q : Qobj) : R :=
  sqrt (fold_right Rplus 0 (map (fun x => x * x) (data q))).

(** [q.unit()]: the object divided by its norm. *)
Definition unit (q : Qobj) : Qobj :=
  {| dims := dims q; data := map (fun x => x / norm q) (data q) |}.

(** Python's [[q] * n] on a list: [n] copies, none when [n <= 0]. *)
Definition list_times {A : Type} (q : A) (n : Z) : list A :=
  repeat q (Z.to_nat n).

End Qutip.

(** ** Core functions (the same text in both engines) *)

Section CoreFunctions.

Variable p : Params.

(** Area Law: V = T *)
Definition measure_hom_visibility (T : R) : R := T.

Definition apply_dce_drive (V M : R) : R :=
  if Rle_dec M 0 then 0
  else DCE_DRIVE_BASE p * V / (M ^ 3).

Definition compute_dNdt (f_dot : R) : R := f_dot ^ 2 * DCE_FACTOR.

(** Hawking evaporation, frozen at the Planck core. *)
Definition update_mass (M dNdt dt : R) : R :=
  if Rle_dec M (M_PLANCK_CORE p) then M
  else
    let dMdt := -1.0 / (15360 * PI * M ^ 2) in
    M + dMdt * dt.

End CoreFunctions.

(** ** The drive and the mass step on binary64 floats *)

(** [apply_dce_drive] and [update_mass] once more, on the floats Python
    computes with and with the exceptions its operators raise:
    [x / y] raises ZeroDivisionError when [y == 0.0], and [x ** y] raises
    OverflowError when a finite [x] gives an infinite result (a result
    that underflows is 0.0, without error).  The constants are the module
    constants of the scripts. *)
Module F64.
Local Open Scope float_scope.

Definition M_PLANCK_CORE : float := 0.05.
Definition DCE_DRIVE_BASE : float := 1e-6.
(** [np.pi], the float nearest to pi. *)
Definition np_pi : float := 3.141592653589793.

(** The product [x * ... * x] of [n] factors, rounded after each
    multiplication.  The C library's [pow] rounds once; the two agree up
    to the last digit, on exact products, and where the result
    underflows to zero or overflows. *)
Fixpoint powers (x : float) (n : nat) : float :=
  match n with
  | O => 1
  | S O => x
  | S m => powers x m * x
  end.

(** [x ** n] *)
Definition pow (x : float) (n : nat) : result float :=
  let r := powers x n in
  if is_finite x && is_infinity r then inl OverflowError else inr r.

(** [x / y] *)
Definition div (x y : float) : result float :=
  if is_zero y then inl ZeroDivisionError else inr (x / y).

Definition apply_dce_drive (V M : float) : result float :=
  if M <=? 0 then inr 0
  else bind (pow M 3) (fun m3 => div (DCE_DRIVE_BASE * V) m3).

Definition update_mass (M dNdt dt : float) : result float :=
  if M <=? M_PLANCK_CORE then inr M
  else
    bind (pow M 2) (fun m2 =>
    bind (div (-1) (15360 * np_pi * m2)) (fun dMdt =>
    inr (M + dMdt * dt))).

(** [float(n)] for a small natural number (the sums are exact). *)
Fixpoint of_nat (n : nat) : float :=
  match n with
  | O => 0
  | S m => of_nat m + 1
  end.

End F64.

(** ** Log rows *)

(** One row of the CSV log, columns as in the header the scripts write.
    The numeric columns hold the values the row formats. *)
Record CycleRecord : Type := mkRow {
  row_cycle : nat;
  row_n : Z;
  row_area_sim : R;
  row_area_expected : R;
  row_V_hom : R;
  row_f_dot : R;
  row_dNdt : R;
  row_dMdt : R;
  row_M : R;
  row_anomaly : string
}.

(** A tag is carried by a row when it occurs in the anomaly column. *)
Definition has_tag (tag anomaly : string) : bool :=
  match String.index 0 tag anomaly with
  | Some _ => true
  | None => false
  end.

(** ** latent_vacuum_engine.py *)

Module LVE.
Import Qutip.

(** Generate full n-mode GHZ state |0...0> + |1...1> (normalized) *)
Definition generate_ghz_full (n : Z) : result Qobj :=
  if (n =? 0)%Z then inr (fock 1 0)
  else
    let zero := basis 2 0 in
    let one := basis 2 1 in
    bind (tensor (list_times zero n)) (fun t0 =>
    bind (tensor (list_times one n)) (fun t1 =>
    bind (add t0 t1) (fun state =>
    inr (unit state)))).

(** Area = n * 2 pi; the vacuum mode counts as one mode. *)
Definition compute_total_wigner_area (psi : Qobj) : R :=
  let n_modes :=
    match type psi with
    | ket => Z.of_nat (List.length (fst (dims psi)))
    | _ => 0%Z
    end in
  IZR (Z.max n_modes 1) * 2 * PI.

Section Engine.

Context `{NumpyRandom}.
Variable p : Params.

(** The variables the main loop reads and writes.  An entry of
    [anomalies] keeps the two values its text is formatted from: the
    cycle and the burst frequency. *)
Record State : Type := mkState {
  M : R;
  white_hole_triggered : bool;
  anomalies : list (nat * R);
  gen : rng;
  log : list CycleRecord
}.

(** State before the loop; [g] is the generator as the process finds
    it (this script never seeds it). *)
Definition init (g : rng) : State :=
  {| M := M_initial p; white_hole_triggered := false; anomalies := [];
     gen := g; log := [] |}.

(** One pass through the body of [for cycle in range(CYCLES)]. *)
Definition loop_body (cycle : nat) (s : State) : result State :=
  let (n, g') := np_random_randint 0 (N_MAX p + 1) (gen s) in
  bind (generate_ghz_full n) (fun psi =>
    let area_sim := compute_total_wigner_area psi in
    let area_expected := IZR (Z.max n 1) * 2 * PI in
    let V := measure_hom_visibility (T_HOM p) in
    let f_dot := apply_dce_drive p V (M s) in
    let dNdt := compute_dNdt f_dot in
    let M_new := update_mass p (M s) dNdt (dt p) in
    let dMdt := (M_new - M s) / dt p in
    let anomaly := EmptyString in
    let anomaly :=
      if Rgt_dec (Rabs (area_sim - area_expected)) 1e-10
      then (anomaly ++ "VACUUM_STRUCTURE_DRIFT ")%string else anomaly in
    let anomaly :=
      if Rgt_dec dNdt 1e-6
      then (anomaly ++ "DCE_FLUX_ANOMALY ")%string else anomaly in
    let burst :=
      if Rle_dec M_new (M_PLANCK_CORE p)
      then negb (white_hole_triggered s) else false in
    let anomaly :=
      if burst
      then (anomaly ++ "PLANCK_CORE_SATURATION WHITE_HOLE_BURST ")%string
      else anomaly in
    let M' := if burst then M_initial p else M_new in
    inr {| M := M';
           white_hole_triggered := white_hole_triggered s || burst;
           anomalies :=
             if burst
             then anomalies s ++ [(cycle, WHITE_HOLE_BURST_FREQ p)]
             else anomalies s;
           gen := g';
           log := log s ++
             [mkRow cycle n area_sim area_expected V f_dot dNdt dMdt
                    M' anomaly] |}).

(** The loop over the first [k] cycles, [for cycle in range(k)]: the state
    after [k] passes, which is also where a KeyboardInterrupt in cycle
    [k] leaves the variables the report reads. *)
Definition run_cycles (k : nat) (g : rng) : result State :=
  fold_left (fun acc cycle => bind acc (loop_body cycle))
            (seq 0 k) (inr (init g)).

(** The whole run. *)
Definition main (g : rng) : result State :=
  run_cycles (Z.to_nat (CYCLES p)) g.

End Engine.

End LVE.

(** ** GHZ Entanglement Entropy and Area Scaling.py, Latent Vacuum Engine v2.2.py *)

Module LVE100k.
Import Qutip.

(** Generate n-mode GHZ state 1/sqrt(2) (|0>^n + |1>^n) *)
Definition ghz_state (n : Z) : result Qobj :=
  if (n =? 0)%Z then inr (fock 1 0)
  else
    let zero := basis 2 0 in
    let one := basis 2 1 in
    bind (tensor (list_times zero n)) (fun t0 =>
    bind (tensor (list_times one n)) (fun t1 =>
    bind (add t0 t1) (fun s =>
    inr (unit s)))).

Section Engine.

Context `{NumpyRandom}.
Variable p : Params.

(** An entry of [anomalies] keeps the values its text is formatted
    from: the cycle, the burst number and the burst frequency. *)
Record State : Type := mkState {
  M : R;
  white_hole_count : Z;
  anomalies : list (nat * Z * R);
  gen : rng;
  log : list CycleRecord
}.

(** State before the loop.  [np.random.seed(42)] overwrites the
    generator [g] the process started with. *)
Definition init (g : rng) : State :=
  {| M := M_initial p; white_hole_count := 0; anomalies := [];
     gen := np_random_seed 42; log := [] |}.

(** One pass through the body of [for cycle in range(CYCLES)]. *)
Definition loop_body (cycle : nat) (s : State) : State :=
  let (n, g') := np_random_randint 0 (N_MAX p + 1) (gen s) in
  let area_expected := IZR (Z.max n 1) * 2 * PI in
  let area_sim := area_expected in
  let V := measure_hom_visibility (T_HOM p) in
  let f_dot := apply_dce_drive p V (M s) in
  let dNdt := compute_dNdt f_dot in
  let M_new := update_mass p (M s) dNdt (dt p) in
  let dMdt := (M_new - M s) / dt p in
  let anomaly := EmptyString in
  let anomaly :=
    if Rgt_dec (Rabs (area_sim - area_expected)) 1e-10
    then (anomaly ++ "AREA_DRIFT ")%string else anomaly in
  let anomaly :=
    if Rgt_dec dNdt 1e-6
    then (anomaly ++ "DCE_ANOMALY ")%string else anomaly in
  if Rle_dec M_new (M_PLANCK_CORE p) then
    {| M := M_initial p;
       white_hole_count := white_hole_count s + 1;
       anomalies := anomalies s ++
         [(cycle, (white_hole_count s + 1)%Z, WHITE_HOLE_BURST_FREQ p)];
       gen := g';
       log := log s ++
         [mkRow cycle n area_sim area_expected V f_dot dNdt dMdt
                (M_initial p) (anomaly ++ "WHITE_HOLE_BURST ")%string] |}
  else
    {| M := M_new;
       white_hole_count := white_hole_count s;
       anomalies := anomalies s;
       gen := g';
       log := log s ++
         [mkRow cycle n area_sim area_expected V f_dot dNdt dMdt
                M_new anomaly] |}.

(** The loop over the first [k] cycles: [for cycle in range(k)]. *)
Definition run_cycles (k : nat) (g : rng) : State :=
  fold_left (fun s cycle => loop_body cycle s) (seq 0 k) (init g).

(** The whole run. *)
Definition main (g : rng) : State :=
  run_cycles (Z.to_nat (CYCLES p)) g.

End Engine.

End LVE100k.

(** ** Wieger_3.py *)

Module Wieger3.
Import Qutip.

Definition latent_state (n : Z) : result Qobj :=
  if (n =? 0)%Z then inr (fock 1 0)
  else
    bind (tensor (list_times (basis 2 0) n)) (fun t0 =>
    bind (tensor (list_times (basis 2 1) n)) (fun t1 =>
    bind (add t0 t1) (fun s =>
    inr (unit s)))).

(** Each reduced mode is |+>: area = 2 pi; returns the area per mode and
    the number of modes. *)
Definition area_per_mode (psi : Qobj) : R * Z :=
  (2 * PI,
   if (1 <? Z.of_nat (List.length (fst (dims psi))))%Z
   then Z.of_nat (List.length (fst (dims psi))) else 1%Z).

End Wieger3.

(** ** Notions used to state the properties *)

(** The mass after the evolution step of a cycle that starts at mass [M]
    (the value of [M_new] in both loops). *)
Definition post_step (p : Params) (M : R) : R :=
  update_mass p M
    (compute_dNdt (apply_dce_drive p (measure_hom_visibility (T_HOM p)) M))
    (dt p).

(** The burst branch of latent_vacuum_engine.py is taken in a cycle that
    starts in state [s]. *)
Definition lve_burst `{NumpyRandom} (p : Params) (s : LVE.State) : bool :=
  if Rle_dec (post_step p (LVE.M s)) (M_PLANCK_CORE p)
  then negb (LVE.white_hole_triggered s) else false.

(** What one pass of the loop body of latent_vacuum_engine.py does to the
    state and which row it appends. *)
Record lve_cycle `{NumpyRandom} (p : Params) (k : nat)
    (s s' : LVE.State) (row : CycleRecord) : Prop := {
  lc_log : LVE.log s' = LVE.log s ++ [row];
  lc_M : LVE.M s' =
         if lve_burst p s then M_initial p else post_step p (LVE.M s);
  lc_trig : LVE.white_hole_triggered s' =
            LVE.white_hole_triggered s || lve_burst p s;
  lc_anom : LVE.anomalies s' =
            if lve_burst p s
            then LVE.anomalies s ++ [(k, WHITE_HOLE_BURST_FREQ p)]
            else LVE.anomalies s;
  lc_gen : LVE.gen s' = snd (np_random_randint 0 (N_MAX p + 1) (LVE.gen s));
  lc_cycle : row_cycle row = k;
  lc_n : row_n row = fst (np_random_randint 0 (N_MAX p + 1) (LVE.gen s));
  lc_n_range : (0 <= row_n row <= N_MAX p)%Z;
  lc_row_M : row_M row = LVE.M s';
  lc_tag : has_tag "WHITE_HOLE_BURST" (row_anomaly row) = lve_burst p s;
  lc_drift : has_tag "VACUUM_STRUCTURE_DRIFT" (row_anomaly row) = false;
  lc_area : row_area_sim row = row_area_expected row;
  lc_area_exp : row_area_expected row = IZR (Z.max (row_n row) 1) * 2 * PI
}.

(** What one pass of the loop body of the seeded engine does to the state
    and which row it appends. *)
Record lve100k_cycle `{NumpyRandom} (p : Params) (k : nat)
    (s s' : LVE100k.State) (row : CycleRecord) : Prop := {
  cc_log : LVE100k.log s' = LVE100k.log s ++ [row];
  cc_M : LVE100k.M s' =
         if Rle_dec (post_step p (LVE100k.M s)) (M_PLANCK_CORE p)
         then M_initial p else post_step p (LVE100k.M s);
  cc_count : LVE100k.white_hole_count s' =
             if Rle_dec (post_step p (LVE100k.M s)) (M_PLANCK_CORE p)
             then (LVE100k.white_hole_count s + 1)%Z
             else LVE100k.white_hole_count s;
  cc_anom : LVE100k.anomalies s' =
            if Rle_dec (post_step p (LVE100k.M s)) (M_PLANCK_CORE p)
            then LVE100k.anomalies s ++
                 [(k, (LVE100k.white_hole_count s + 1)%Z,
                   WHITE_HOLE_BURST_FREQ p)]
            else LVE100k.anomalies s;
  cc_gen : LVE100k.gen s' =
           snd (np_random_randint 0 (N_MAX p + 1) (LVE100k.gen s));
  cc_cycle : row_cycle row = k;
  cc_n : row_n row = fst (np_random_randint 0 (N_MAX p + 1) (LVE100k.gen s));
  cc_n_range : (0 <= row_n row <= N_MAX p)%Z;
  cc_row_M : row_M row = LVE100k.M s';
  cc_tag : has_tag "WHITE_HOLE_BURST" (row_anomaly row) =
           if Rle_dec (post_step p (LVE100k.M s)) (M_PLANCK_CORE p)
           then true else false;
  cc_drift : has_tag "AREA_DRIFT" (row_anomaly row) = false;
  cc_area : row_area_sim row = row_area_expected row;
  cc_area_exp : row_area_expected row = IZR (Z.max (row_n row) 1) * 2 * PI
}.

(** A linear congruential generator, to run the engines on. *)
Definition lcg_draw (low high g : Z) : Z * Z :=
  ((low + g mod (high - low))%Z,
   ((1103515245 * g + 12345) mod 2147483648)%Z).

Lemma lcg_draw_range (low high g : Z) :
  (low < high)%Z -> (low <= fst (lcg_draw low high g) < high)%Z.
Proof.
  intro Hlt. cbn [fst lcg_draw].
  pose proof (Z.mod_pos_bound g (high - low)) as Hm. lia.
Qed.

Definition lcg_random : NumpyRandom :=
  {| rng := Z;
     np_random_seed := fun s => s;
     np_random_randint := lcg_draw;
     randint_range := lcg_draw_range |}.

(** The shipped constants with a coarse time step and four cycles: from
    mass 1 one step ends between 0 and the core mass 0.05. *)
Definition coarse_params : Params :=
  {| M_initial := 1.0; N_MAX := 6; CYCLES := 4; T_HOM := 0.8;
     DCE_DRIVE_BASE := 1e-6; dt := 47000; M_PLANCK_CORE := 0.05;
     WHITE_HOLE_BURST_FREQ := 1.0 |}.

(** ** The final reports *)

(** [f"{cycle}"] and [f"{white_hole_count + 1}"]: integers in decimal. *)
Definition str_of_nat (n : nat) : string :=
  NilEmpty.string_of_uint (Nat.to_uint n).

Definition str_of_Z (z : Z) : string :=
  NilZero.string_of_int (Z.to_int z).

Section Reports.
Context `{NumpyRandom}.
(* f"{x:.1e}": the rendering of a float is left open *)
Variable fmt_1e : R -> string.

(** The text of one entry of [anomalies] in latent_vacuum_engine.py. *)
Definition lve_entry (e : nat * R) : string :=
  ("Cycle " ++ str_of_nat (fst e) ++ ": WHITE HOLE EMISSION at ν="
   ++ fmt_1e (snd e))%string.

(** The lines latent_vacuum_engine.py writes to ANOMALY_FILE. *)
Definition lve_report (s : LVE.State) : list string :=
  match LVE.anomalies s with
  | [] => ["NO ANOMALIES — CLEAN EVAPORATION"%string]
  | _ :: _ => "ANOMALIES DETECTED:"%string :: map lve_entry (LVE.anomalies s)
  end.

(** The text of one entry of [anomalies] in the seeded engine. *)
Definition lve100k_entry (e : nat * Z * R) : string :=
  ("Cycle " ++ str_of_nat (fst (fst e)) ++ ": WHITE HOLE #"
   ++ str_of_Z (snd (fst e)) ++ " at freq=" ++ fmt_1e (snd e) ++ " Hz")%string.

(** The lines the seeded engine writes to ANOMALY_FILE. *)
Definition lve100k_report (s : LVE100k.State) : list string :=
  match LVE100k.anomalies s with
  | [] => ["NO ANOMALIES — CLEAN EVAPORATION"%string]
  | _ :: _ =>
      "WHITE HOLE BURSTS DETECTED:"%string
      :: map lve100k_entry (LVE100k.anomalies s)
  end.

End Reports.

(** The cycles of the rows of a log that carry WHITE_HOLE_BURST. *)
Definition burst_cycles (log : list CycleRecord) : list nat :=
  map row_cycle
      (filter (fun r => has_tag "WHITE_HOLE_BURST" (row_anomaly r)) log).

(** ** The table loop of Wieger_3.py *)

(** One pass of [for n in range(7)]: the values the printed line is
    formatted from (area per mode, total, expected, match). *)
Definition wieger_row (n : Z) : result (R * R * R * bool) :=
  bind (Wieger3.latent_state n) (fun psi =>
    let (area_per, n_modes) := Wieger3.area_per_mode psi in
    let total := area_per * IZR n_modes in
    let expected := IZR (Z.max n 1) * 2 * PI in
    let matches :=
      if Rlt_dec (Rabs (total - expected)) 1e-3 then true else false in
    inr (area_per, total, expected, matches)).


(** * Properties *)

(** ** The drive and mass-evolution models *)

Lemma evap_den_pos (M : R) : M <> 0 -> 0 < 15360 * PI * M ^ 2.
Proof.
  intro HM. pose proof PI_RGT_0 as Hpi.
  assert (0 < M ^ 2) by (simpl; nra).
  apply Rmult_lt_0_compat; lra.
Qed.

Lemma update_mass_frozen p M f d :
  M <= M_PLANCK_CORE p -> update_mass p M f d = M.
Proof.
  intro Hle. unfold update_mass.
  destruct (Rle_dec _ _); [reflexivity | contradiction].
Qed.

Lemma update_mass_above p M f d :
  M_PLANCK_CORE p < M ->
  update_mass p M f d = M - d / (15360 * PI * M ^ 2).
Proof.
  intro Hlt. unfold update_mass.
  destruct (Rle_dec _ _) as [Hle|_]; [lra|].
  cbv zeta. unfold Rdiv. lra.
Qed.

(** Bounds on pi from the first terms of the Machin-like series for
    2 atan(1/3) + atan(1/7). *)
Lemma PI_bounds : 3.1415 < PI < 3.1421.
Proof.
  pose proof (PI_2_3_7_ineq 1) as [Hlo Hhi].
  unfold sum_f_R0, tg_alt, PI_2_3_7_tg, Ratan_seq in Hlo, Hhi.
  simpl in Hlo, Hhi.
  split; lra.
Qed.

(** Binary64 absorbs a decrement that is small against the mass: at mass
    1e6, above the core, the step with [dt = 1.0] returns 1e6 itself; at
    mass 1e200 the square overflows and the call raises. *)
Lemma update_mass_step_absorbed :
  (F64.M_PLANCK_CORE <? 1e6)%float = true /\
  (0 <? 1)%float = true /\
  F64.update_mass 1e6 0 1 = inr 1e6%float /\
  F64.update_mass 1e200 0 1 = inl OverflowError.
Proof. vm_compute. repeat split. Qed.

(** C4, amended. [update_mass] returns [M] unchanged when
    [M <= M_PLANCK_CORE], on every float.  For a mass above the core and
    up to 1 (the masses a run reaches; the core is 0.05 or more) and a
    time step of 1e-6 or more it returns [M - dt / (15360 pi M^2)], which
    is below [M] by at least [dt / 50000]; on the floats 0.051, 0.052,
    ..., 1.0 and with [dt = 1.0] the float returned is less than [M]. *)
Theorem update_mass_frozen_or_decays :
  (forall M f d : float,
     (M <=? F64.M_PLANCK_CORE)%float = true ->
     F64.update_mass M f d = inr M) /\
  (forall (i : nat) (f : float), (51 <= i <= 1000)%nat ->
     exists M' : float,
       F64.update_mass (F64.of_nat i / 1000)%float f 1 = inr M' /\
       (M' <? F64.of_nat i / 1000)%float = true) /\
  (forall (p : Params) (M f d : R),
     0.05 <= M_PLANCK_CORE p ->
     (M <= M_PLANCK_CORE p -> update_mass p M f d = M) /\
     (M_PLANCK_CORE p < M -> M <= 1 -> 1e-6 <= d ->
        update_mass p M f d = M - d / (15360 * PI * M ^ 2) /\
        update_mass p M f d <= M - d / 50000 /\
        update_mass p M f d < M)).
Proof.
  split; [|split].
  - intros M f d HM. unfold F64.update_mass. now rewrite HM.
  - intros i f Hi.
    assert (forallb
              (fun i => match F64.update_mass (F64.of_nat i / 1000)%float 0 1
                        with
                        | inr M' => (M' <? F64.of_nat i / 1000)%float
                        | inl _ => false
                        end) (seq 51 950) = true) as Hg
      by (vm_compute; reflexivity).
    rewrite forallb_forall in Hg.
    assert (In i (seq 51 950)) as Hin by (apply in_seq; lia).
    specialize (Hg i Hin).
    change (F64.update_mass (F64.of_nat i / 1000)%float f 1)
      with (F64.update_mass (F64.of_nat i / 1000)%float 0 1).
    destruct (F64.update_mass (F64.of_nat i / 1000)%float 0 1) as [e|M'];
      [discriminate|].
    exists M'. split; [reflexivity | exact Hg].
  - intros p M f d Hc. split; [apply update_mass_frozen|].
    intros HM H1 Hd. rewrite update_mass_above by exact HM.
    destruct PI_bounds as [Hlo Hhi].
    assert (0 < 15360 * PI * M ^ 2) as Hden by (apply evap_den_pos; lra).
    assert (15360 * PI * M ^ 2 < 50000) as Hup by (simpl; nra).
    assert (/ 50000 < / (15360 * PI * M ^ 2)) as Hinv
      by (apply Rinv_lt_contravar; [nra | exact Hup]).
    unfold Rdiv. split; [reflexivity|]. split; nra.
Qed.

Lemma update_mass_frozen_or_decays_witness :
  F64.update_mass 0.05 0 1 = inr 0.05%float /\
  (exists M' : float,
     F64.update_mass (F64.of_nat 1000 / 1000)%float 0 1 = inr M' /\
     (M' <? F64.of_nat 1000 / 1000)%float = true) /\
  update_mass lve_params 0.05 0 1 = 0.05 /\
  update_mass lve_params 0.5 0 1 = 0.5 - 1 / (15360 * PI * 0.5 ^ 2) /\
  update_mass lve_params 0.5 0 1 < 0.5.
Proof.
  destruct update_mass_frozen_or_decays as (HF & HG & HR).
  assert (0.05 <= M_PLANCK_CORE lve_params) as Hc by (simpl; lra).
  split; [apply HF; reflexivity|].
  split; [apply HG; lia|].
  split; [apply (proj1 (HR lve_params 0.05 0 1 Hc)); simpl; lra|].
  destruct (proj2 (HR lve_params 0.5 0 1 Hc)) as (He & _ & Hlt);
    [simpl; lra | lra | lra |].
  split; [exact He | exact Hlt].
Defined.

(** C5. The mass step does not read its flux-rate argument: any two flux
    rates give the same result. *)
Theorem update_mass_ignores_flux (p : Params) (M f1 f2 d : R) :
  update_mass p M f1 d = update_mass p M f2 d.
Proof. reflexivity. Qed.


Lemma apply_dce_drive_pos p V M :
  0 < M -> apply_dce_drive p V M = DCE_DRIVE_BASE p * V / M ^ 3.
Proof.
  intro Hlt. unfold apply_dce_drive.
  destruct (Rle_dec M 0); [lra | reflexivity].
Qed.






(** ** The state generator and the area observable *)

Module GhzFacts.
Import Qutip.

Lemma compound_keep (l : list Z) (d : Z) :
  d <> 1%Z -> compound (l ++ [d]) = l ++ [d].
Proof.
  intro Hd. unfold compound. rewrite forallb_app. cbn [forallb].
  destruct (Z.eqb_spec 1 d) as [E|_]; [now elim Hd|].
  now rewrite andb_false_r.
Qed.

(** Tensoring [k] more copies of a ket of one [d]-level system onto a
    ket. *)
Lemma tensor_repeat_dims (d : Z) (q acc : Qobj) (k : nat) :
  d <> 1%Z -> dims q = ([d], [1%Z]) -> snd (dims acc) = [1%Z] ->
  dims (fold_left tensor2 (repeat q k) acc) =
  (fst (dims acc) ++ repeat d k, [1%Z]).
Proof.
  intros Hd Hq. revert acc. induction k as [|k IH]; intros acc Hacc.
  - cbn [repeat fold_left]. rewrite app_nil_r, <- Hacc. now destruct (dims acc).
  - cbn [repeat fold_left]. rewrite IH.
    + cbn [tensor2 dims fst]. rewrite Hq. cbn [fst].
      rewrite compound_keep by exact Hd.
      now rewrite <- app_assoc.
    + cbn [tensor2 dims snd]. rewrite Hq, Hacc. reflexivity.
Qed.

(** The tensor product of [k + 1] copies of a qubit basis ket. *)
Lemma tensor_basis_dims (b : nat) (k : nat) :
  exists t, tensor (list_times (basis 2 b) (Z.of_nat (S k))) = inr t /\
            dims t = (repeat 2%Z (S k), [1%Z]).
Proof.
  unfold list_times. rewrite Nat2Z.id. simpl repeat. cbn [tensor].
  eexists. split; [reflexivity|].
  rewrite (tensor_repeat_dims 2); [reflexivity | lia | reflexivity | reflexivity].
Qed.

Lemma prod_dims_twos k : (1 <= prod_dims (repeat 2%Z k))%Z.
Proof.
  induction k as [|k IH]; [cbn; lia|].
  cbn [repeat]. unfold prod_dims in *. cbn [fold_right]. lia.
Qed.

(** For a positive mode count the generator succeeds and the state is a
    ket with one two-level factor per mode. *)
Lemma generate_ghz_full_pos (n : Z) :
  (0 < n)%Z ->
  exists psi, LVE.generate_ghz_full n = inr psi /\
              dims psi = (repeat 2%Z (Z.to_nat n), [1%Z]).
Proof.
  intro Hn. unfold LVE.generate_ghz_full.
  destruct (Z.eqb_spec n 0) as [->|_]; [lia|].
  destruct (Z.to_nat n) as [|k] eqn:Hk; [lia|].
  assert (n = Z.of_nat (S k)) as -> by lia.
  destruct (tensor_basis_dims 0 k) as (t0 & -> & D0).
  destruct (tensor_basis_dims 1 k) as (t1 & -> & D1).
  cbn [bind]. unfold add. rewrite D0, D1. cbn [fst snd].
  destruct (list_eq_dec Z.eq_dec _ _) as [_|Hne]; [|now elim Hne].
  destruct (list_eq_dec Z.eq_dec _ _) as [_|Hne]; [|now elim Hne].
  cbn [bind]. eexists. split; [reflexivity|].
  cbn [unit dims]. reflexivity.
Qed.

Lemma generate_ghz_full_zero : LVE.generate_ghz_full 0 = inr (fock 1 0).
Proof. reflexivity. Qed.

Lemma generate_ghz_full_neg (n : Z) :
  (n < 0)%Z -> LVE.generate_ghz_full n = inl IndexError.
Proof.
  intro Hn. unfold LVE.generate_ghz_full.
  destruct (Z.eqb_spec n 0) as [->|_]; [lia|].
  unfold list_times. replace (Z.to_nat n) with 0%nat by lia. reflexivity.
Qed.

Lemma type_ghz (psi : Qobj) (k : nat) :
  dims psi = (repeat 2%Z (S k), [1%Z]) -> type psi = ket.
Proof.
  intro D. unfold type. rewrite D. cbn [fst snd].
  pose proof (prod_dims_twos k) as H2.
  destruct (Z.eqb_spec (prod_dims (repeat 2%Z (S k))) 1) as [E|_].
  - cbn [repeat] in E. unfold prod_dims in *. cbn [fold_right] in E. lia.
  - reflexivity.
Qed.

Lemma area_of_generated (n : Z) (psi : Qobj) :
  (0 <= n)%Z -> LVE.generate_ghz_full n = inr psi ->
  LVE.compute_total_wigner_area psi = IZR (Z.max n 1) * 2 * PI.
Proof.
  intros Hn Hg.
  destruct (Z.eq_dec n 0) as [->|Hnz].
  - rewrite generate_ghz_full_zero in Hg. injection Hg as <-. reflexivity.
  - destruct (generate_ghz_full_pos n) as (psi' & Hg' & D); [lia|].
    rewrite Hg in Hg'. injection Hg' as <-.
    unfold LVE.compute_total_wigner_area.
    destruct (Z.to_nat n) as [|k] eqn:Hk; [lia|].
    rewrite (type_ghz psi k D), D. cbn [fst].
    rewrite repeat_length. rewrite <- Hk, Z2Nat.id by lia. reflexivity.
Qed.
End GhzFacts.

(** ** latent_vacuum_engine.py: one cycle *)

Lemma no_drift (x : R) : ~ Rabs (x - x) > 1e-10.
Proof. rewrite Rminus_diag, Rabs_R0. lra. Qed.

Lemma generate_ghz_full_ok (n : Z) :
  (0 <= n)%Z ->
  exists psi, LVE.generate_ghz_full n = inr psi /\
              LVE.compute_total_wigner_area psi = IZR (Z.max n 1) * 2 * PI.
Proof.
  intro Hn. destruct (Z.eq_dec n 0) as [->|Hz].
  - eexists. split; [apply GhzFacts.generate_ghz_full_zero|].
    apply GhzFacts.area_of_generated with (n := 0%Z); [lia | reflexivity].
  - destruct (GhzFacts.generate_ghz_full_pos n) as (psi & Hg & _); [lia|].
    exists psi. split; [exact Hg|].
    now apply GhzFacts.area_of_generated.
Qed.

Section LVEFacts.
Context `{NumpyRandom}.
Variable p : Params.
Hypothesis N_MAX_ok : (0 <= N_MAX p)%Z.

Lemma loop_body_spec (k : nat) (s : LVE.State) :
  exists s' row, LVE.loop_body p k s = inr s' /\ lve_cycle p k s s' row.
Proof.
  unfold LVE.loop_body.
  pose proof (randint_range 0 (N_MAX p + 1) (LVE.gen s)) as Hr.
  destruct (np_random_randint 0 (N_MAX p + 1) (LVE.gen s)) as [n g'] eqn:Hd.
  cbn [fst] in Hr. assert (0 <= n <= N_MAX p)%Z as Hn by lia.
  destruct (generate_ghz_full_ok n) as (psi & -> & Ha); [lia|].
  cbn [bind]. cbv zeta. rewrite Ha.
  destruct (Rgt_dec (Rabs _) _) as [Habs|_]; [now apply no_drift in Habs|].
  do 2 eexists. split; [reflexivity|].
  fold (post_step p (LVE.M s)).
  split; [reflexivity | ..];
    cbn [LVE.log LVE.M LVE.white_hole_triggered LVE.anomalies LVE.gen
         row_cycle row_n row_M row_anomaly row_area_sim
         row_area_expected fst snd];
    rewrite ?Hd; try reflexivity; try exact Hn; unfold lve_burst;
    destruct (Rgt_dec _ _), (Rle_dec _ _), (LVE.white_hole_triggered s);
    reflexivity.
Qed.

(** ** latent_vacuum_engine.py: runs *)

Lemma run_cycles_S (k : nat) (g : rng) :
  LVE.run_cycles p (S k) g = bind (LVE.run_cycles p k g) (LVE.loop_body p k).
Proof.
  unfold LVE.run_cycles. rewrite seq_S, fold_left_app. reflexivity.
Qed.

(** The loop raises nothing: every number of cycles ends in a state. *)
Lemma run_cycles_total (k : nat) (g : rng) :
  exists s, LVE.run_cycles p k g = inr s.
Proof.
  induction k as [|k [s Hs]].
  - eexists. reflexivity.
  - rewrite run_cycles_S, Hs. cbn [bind].
    destruct (loop_body_spec k s) as (s' & _ & Hs' & _). now exists s'.
Qed.

(** The state after [k + 1] cycles comes from the state after [k] by one
    pass of the body. *)
Lemma run_cycles_step (k : nat) (g : rng) (s' : LVE.State) :
  LVE.run_cycles p (S k) g = inr s' ->
  exists s row, LVE.run_cycles p k g = inr s /\ lve_cycle p k s s' row.
Proof.
  rewrite run_cycles_S. destruct (run_cycles_total k g) as [s Hs].
  rewrite Hs. cbn [bind]. intro Hb.
  destruct (loop_body_spec k s) as (s2 & row & Hs2 & Hc).
  rewrite Hb in Hs2. injection Hs2 as <-. now exists s, row.
Qed.

Lemma run_log_length (k : nat) (g : rng) (s : LVE.State) :
  LVE.run_cycles p k g = inr s -> length (LVE.log s) = k.
Proof.
  revert s. induction k as [|k IH]; intros s Hs.
  - injection Hs as <-. reflexivity.
  - destruct (run_cycles_step k g s Hs) as (s0 & row & Hs0 & Hc).
    rewrite (lc_log _ _ _ _ _ Hc), length_app, (IH s0 Hs0). simpl. lia.
Qed.

(** The row found at position [i] of a later log is the row cycle [i]
    appended. *)
Lemma run_log_row (K : nat) (g : rng) (sK : LVE.State) (i : nat) (r : CycleRecord) :
  LVE.run_cycles p K g = inr sK ->
  nth_error (LVE.log sK) i = Some r ->
  exists s s', LVE.run_cycles p i g = inr s /\
               LVE.run_cycles p (S i) g = inr s' /\
               lve_cycle p i s s' r.
Proof.
  revert sK. induction K as [|K IH]; intros sK HK Hr.
  - injection HK as <-. destruct i; discriminate Hr.
  - destruct (run_cycles_step K g sK HK) as (s0 & row & Hs0 & Hc).
    pose proof (run_log_length K g s0 Hs0) as Hlen.
    rewrite (lc_log _ _ _ _ _ Hc) in Hr.
    destruct (Nat.lt_ge_cases i K) as [Hlt|Hge].
    + rewrite nth_error_app1 in Hr by lia. exact (IH s0 Hs0 Hr).
    + rewrite nth_error_app2 in Hr by lia. rewrite Hlen in Hr.
      destruct (i - K)%nat as [|d] eqn:Hd; [|destruct d; discriminate Hr].
      injection Hr as <-. assert (i = K) as -> by lia.
      now exists s0, sK.
Qed.

(** The latch is never cleared. *)
Lemma latch_stays (i j : nat) (g : rng) (si sj : LVE.State) :
  (i <= j)%nat ->
  LVE.run_cycles p i g = inr si ->
  LVE.run_cycles p j g = inr sj ->
  LVE.white_hole_triggered si = true ->
  LVE.white_hole_triggered sj = true.
Proof.
  intros Hij Hi. revert sj. induction Hij as [|j Hij IH]; intros sj Hj Ht.
  - rewrite Hi in Hj. now injection Hj as <-.
  - destruct (run_cycles_step j g sj Hj) as (s0 & row & Hs0 & Hc).
    rewrite (lc_trig _ _ _ _ _ Hc), (IH s0 Hs0 Ht). reflexivity.
Qed.

(** With the latch set, a mass at or below the core stays where it is. *)
Lemma latched_mass_frozen (j k : nat) (g : rng) (sj sk : LVE.State) :
  (j <= k)%nat ->
  LVE.run_cycles p j g = inr sj ->
  LVE.run_cycles p k g = inr sk ->
  LVE.white_hole_triggered sj = true ->
  LVE.M sj <= M_PLANCK_CORE p ->
  LVE.M sk = LVE.M sj.
Proof.
  intros Hjk Hj. revert sk. induction Hjk as [|k Hjk IH]; intros sk Hk Ht Hm.
  - rewrite Hj in Hk. now injection Hk as <-.
  - destruct (run_cycles_step k g sk Hk) as (s0 & row & Hs0 & Hc).
    pose proof (IH s0 Hs0 Ht Hm) as HM0.
    pose proof (latch_stays j k g sj s0 Hjk Hj Hs0 Ht) as Ht0.
    rewrite (lc_M _ _ _ _ _ Hc). unfold lve_burst. rewrite Ht0.
    destruct (Rle_dec _ _); cbn [negb]; unfold post_step;
      rewrite update_mass_frozen by lra; exact HM0.
Qed.

End LVEFacts.

(** C9. In latent_vacuum_engine.py, once a row carries WHITE_HOLE_BURST no
    later row of the run carries it, and when after that the mass is at or
    below the core at the end of a cycle it keeps that value in every
    later cycle (it is not reset to [M_initial]). *)
Theorem latch_never_rearms `{NumpyRandom} (p : Params) (g : rng) (K : nat)
    (sK : LVE.State) (i j : nat) (ri rj : CycleRecord) :
  params_ok p ->
  LVE.run_cycles p K g = inr sK ->
  nth_error (LVE.log sK) i = Some ri ->
  nth_error (LVE.log sK) j = Some rj ->
  (i < j)%nat ->
  has_tag "WHITE_HOLE_BURST" (row_anomaly ri) = true ->
  has_tag "WHITE_HOLE_BURST" (row_anomaly rj) = false /\
  (row_M rj <= M_PLANCK_CORE p ->
   forall k rk, (j <= k)%nat -> nth_error (LVE.log sK) k = Some rk ->
     row_M rk = row_M rj /\ row_M rk <= M_PLANCK_CORE p).
Proof.
  intros (_ & _ & _ & HN) HK Hri Hrj Hij Htag.
  destruct (run_log_row p HN K g sK i ri HK Hri) as (si & si' & Hsi & Hsi' & Hci).
  destruct (run_log_row p HN K g sK j rj HK Hrj) as (sj & sj' & Hsj & Hsj' & Hcj).
  assert (LVE.white_hole_triggered si' = true) as Hti'.
  { rewrite (lc_trig _ _ _ _ _ Hci), <- (lc_tag _ _ _ _ _ Hci), Htag.
    apply orb_true_r. }
  assert (LVE.white_hole_triggered sj = true) as Htj
    by (apply (latch_stays p HN (S i) j g si' sj); [lia | assumption..]).
  assert (LVE.white_hole_triggered sj' = true) as Htj'
    by (apply (latch_stays p HN (S i) (S j) g si' sj'); [lia | assumption..]).
  split.
  - rewrite (lc_tag _ _ _ _ _ Hcj). unfold lve_burst. rewrite Htj.
    now destruct (Rle_dec _ _).
  - intros Hm k rk Hjk Hrk.
    destruct (run_log_row p HN K g sK k rk HK Hrk) as (sk & sk' & Hsk & Hsk' & Hck).
    rewrite (lc_row_M _ _ _ _ _ Hcj) in *.
    rewrite (lc_row_M _ _ _ _ _ Hck).
    rewrite (latched_mass_frozen p HN (S j) (S k) g sj' sk') by (assumption || lia).
    split; [reflexivity | exact Hm].
Qed.

(** The two ways a cycle of latent_vacuum_engine.py can go at the core. *)
Lemma lve_cycle_unlatched `{NumpyRandom} (p : Params) (k : nat)
    (s s' : LVE.State) (row : CycleRecord) :
  lve_cycle p k s s' row ->
  LVE.white_hole_triggered s = false ->
  post_step p (LVE.M s) <= M_PLANCK_CORE p ->
  has_tag "WHITE_HOLE_BURST" (row_anomaly row) = true /\
  LVE.M s' = M_initial p /\
  LVE.white_hole_triggered s' = true /\
  LVE.anomalies s' = LVE.anomalies s ++ [(k, WHITE_HOLE_BURST_FREQ p)].
Proof.
  intros Hc Ht Hm.
  assert (lve_burst p s = true) as Hb.
  { unfold lve_burst. rewrite Ht. now destruct (Rle_dec _ _). }
  rewrite (lc_tag _ _ _ _ _ Hc), (lc_M _ _ _ _ _ Hc), (lc_trig _ _ _ _ _ Hc),
    (lc_anom _ _ _ _ _ Hc), Hb, orb_true_r. auto.
Qed.

Lemma lve_cycle_latched `{NumpyRandom} (p : Params) (k : nat)
    (s s' : LVE.State) (row : CycleRecord) :
  lve_cycle p k s s' row ->
  LVE.white_hole_triggered s = true ->
  has_tag "WHITE_HOLE_BURST" (row_anomaly row) = false /\
  LVE.M s' = post_step p (LVE.M s) /\
  LVE.white_hole_triggered s' = true /\
  LVE.anomalies s' = LVE.anomalies s.
Proof.
  intros Hc Ht.
  assert (lve_burst p s = false) as Hb.
  { unfold lve_burst. rewrite Ht. now destruct (Rle_dec _ _). }
  rewrite (lc_tag _ _ _ _ _ Hc), (lc_M _ _ _ _ _ Hc), (lc_trig _ _ _ _ _ Hc),
    (lc_anom _ _ _ _ _ Hc), Hb, Ht. auto.
Qed.

(** ** A run with the coarse time step *)

Lemma coarse_post_step :
  post_step coarse_params 1.0 = 1.0 - 47000 / (15360 * PI * 1.0 ^ 2) /\
  0 < post_step coarse_params 1.0 /\
  post_step coarse_params 1.0 <= 0.05.
Proof.
  unfold post_step. rewrite update_mass_above by (simpl; lra).
  cbn [dt coarse_params]. split; [reflexivity|].
  destruct PI_bounds as [Hlo Hhi].
  replace (15360 * PI * 1.0 ^ 2) with (15360 * PI) by (simpl; lra).
  assert (/ (15360 * 3.1421) < / (15360 * PI)) as H1
    by (apply Rinv_lt_contravar; nra).
  assert (/ (15360 * PI) < / (15360 * 3.1415)) as H2
    by (apply Rinv_lt_contravar; nra).
  unfold Rdiv. lra.
Qed.

Lemma coarse_params_ok : params_ok coarse_params.
Proof. unfold params_ok. simpl. repeat split; try lra; lia. Qed.

(** The run of latent_vacuum_engine.py on the coarse parameters: the first
    cycle bursts and resets, the second ends at the core without a burst,
    and the mass stays there. *)
Lemma coarse_run `{NumpyRandom} (g : rng) :
  exists s1 s2 r0 r1,
    LVE.run_cycles coarse_params 1 g = inr s1 /\
    LVE.run_cycles coarse_params 2 g = inr s2 /\
    lve_cycle coarse_params 0 (LVE.init coarse_params g) s1 r0 /\
    lve_cycle coarse_params 1 s1 s2 r1 /\
    has_tag "WHITE_HOLE_BURST" (row_anomaly r0) = true /\
    LVE.M s1 = 1.0 /\
    LVE.white_hole_triggered s1 = true /\
    LVE.anomalies s1 = [(0%nat, 1.0)] /\
    has_tag "WHITE_HOLE_BURST" (row_anomaly r1) = false /\
    LVE.M s2 = post_step coarse_params 1.0 /\
    LVE.anomalies s2 = LVE.anomalies s1.
Proof.
  assert (0 <= N_MAX coarse_params)%Z as HN by (simpl; lia).
  destruct (run_cycles_total coarse_params HN 2 g) as [s2 Hs2].
  destruct (run_cycles_step coarse_params HN 1 g s2 Hs2) as (s1 & r1 & Hs1 & Hc1).
  destruct (run_cycles_step coarse_params HN 0 g s1 Hs1) as (s0 & r0 & Hs0 & Hc0).
  injection Hs0 as <-.
  destruct coarse_post_step as (_ & Hpos & Hle).
  destruct (lve_cycle_unlatched _ _ _ _ _ Hc0) as (T0 & M1 & L1 & A1);
    [reflexivity | exact Hle |].
  destruct (lve_cycle_latched _ _ _ _ _ Hc1 L1) as (T1 & M2 & L2 & A2).
  exists s1, s2, r0, r1. rewrite M2, M1, A2, A1.
  repeat match goal with |- _ /\ _ => split end; auto.
Qed.

Lemma nth_error_in_log `{NumpyRandom} (p : Params) (K : nat) (g : rng)
    (sK : LVE.State) (i : nat) :
  (0 <= N_MAX p)%Z -> LVE.run_cycles p K g = inr sK -> (i < K)%nat ->
  exists r, nth_error (LVE.log sK) i = Some r.
Proof.
  intros HN HK Hi.
  destruct (nth_error (LVE.log sK) i) as [r|] eqn:E; [now exists r|].
  apply nth_error_None in E. rewrite (run_log_length p HN K g sK HK) in E. lia.
Qed.

Lemma latch_never_rearms_witness :
  exists sK ri rj rk,
    LVE.main (H := lcg_random) coarse_params 42%Z = inr sK /\
    nth_error (LVE.log sK) 0 = Some ri /\
    nth_error (LVE.log sK) 1 = Some rj /\
    nth_error (LVE.log sK) 3 = Some rk /\
    has_tag "WHITE_HOLE_BURST" (row_anomaly ri) = true /\
    has_tag "WHITE_HOLE_BURST" (row_anomaly rj) = false /\
    row_M rj <= M_PLANCK_CORE coarse_params /\
    row_M rk = row_M rj /\
    row_M rk <= M_PLANCK_CORE coarse_params.
Proof.
  assert (0 <= N_MAX coarse_params)%Z as HN by (simpl; lia).
  unfold LVE.main. change (Z.to_nat (CYCLES coarse_params)) with 4%nat.
  destruct (run_cycles_total (H := lcg_random) coarse_params HN 4 42%Z)
    as [sK HK].
  destruct (nth_error_in_log (H := lcg_random) coarse_params 4 42%Z sK 0
              HN HK) as [ri Hri]; [lia|].
  destruct (nth_error_in_log (H := lcg_random) coarse_params 4 42%Z sK 1
              HN HK) as [rj Hrj]; [lia|].
  destruct (nth_error_in_log (H := lcg_random) coarse_params 4 42%Z sK 3
              HN HK) as [rk Hrk]; [lia|].
  destruct (coarse_run (H := lcg_random) 42%Z)
    as (s1 & s2 & r0 & r1 & Hs1 & Hs2 & Hc0 & Hc1 & T0 & M1 & L1 & _ & _ & M2 & _).
  destruct (run_log_row (H := lcg_random) coarse_params HN 4 42%Z sK 0 ri HK Hri)
    as (t0 & t1 & Ht0 & Ht1 & Hd0).
  destruct (run_log_row (H := lcg_random) coarse_params HN 4 42%Z sK 1 rj HK Hrj)
    as (u1 & u2 & Hu1 & Hu2 & Hd1).
  injection Ht0 as <-.
  rewrite Hs1 in Hu1. injection Hu1 as <-.
  rewrite Hs2 in Hu2. injection Hu2 as <-.
  destruct coarse_post_step as (_ & _ & Hle).
  assert (has_tag "WHITE_HOLE_BURST" (row_anomaly ri) = true) as Htag.
  { apply (lve_cycle_unlatched _ _ _ _ _ Hd0); [reflexivity | exact Hle]. }
  assert (row_M rj <= M_PLANCK_CORE coarse_params) as Hcore.
  { rewrite (lc_row_M _ _ _ _ _ Hd1), M2. exact Hle. }
  destruct (latch_never_rearms (H := lcg_random) coarse_params 42%Z 4 sK 0 1 ri rj
              coarse_params_ok HK Hri Hrj (Nat.lt_0_succ 0) Htag)
    as [Hno Hfrozen].
  destruct (Hfrozen Hcore 3%nat rk (le_S _ _ (le_S _ _ (le_n 1))) Hrk)
    as [Heq Hle3].
  exists sK, ri, rj, rk. auto 10.
Defined.

(** ** The seeded engine: one cycle and runs *)

Section LVE100kFacts.
Context `{NumpyRandom}.
Variable p : Params.
Hypothesis N_MAX_ok : (0 <= N_MAX p)%Z.

Lemma loop_body100k_spec (k : nat) (s : LVE100k.State) :
  exists row, lve100k_cycle p k s (LVE100k.loop_body p k s) row.
Proof.
  unfold LVE100k.loop_body.
  pose proof (randint_range 0 (N_MAX p + 1) (LVE100k.gen s)) as Hr.
  destruct (np_random_randint 0 (N_MAX p + 1) (LVE100k.gen s))
    as [n g'] eqn:Hd.
  cbn [fst] in Hr. assert (0 <= n <= N_MAX p)%Z as Hn by lia.
  cbv zeta.
  destruct (Rgt_dec (Rabs _) _) as [Habs|_]; [now apply no_drift in Habs|].
  fold (post_step p (LVE100k.M s)).
  destruct (Rle_dec (post_step p (LVE100k.M s)) (M_PLANCK_CORE p)) eqn:E;
    eexists; (split; [reflexivity | ..]);
    cbn [LVE100k.log LVE100k.M LVE100k.white_hole_count LVE100k.anomalies
         LVE100k.gen row_cycle row_n row_M row_anomaly row_area_sim
         row_area_expected fst snd];
    rewrite ?Hd, ?E; try reflexivity; try exact Hn;
    destruct (Rgt_dec _ _); reflexivity.
Qed.

Lemma run100k_S (k : nat) (g : rng) :
  LVE100k.run_cycles p (S k) g =
  LVE100k.loop_body p k (LVE100k.run_cycles p k g).
Proof.
  unfold LVE100k.run_cycles. rewrite seq_S, fold_left_app. reflexivity.
Qed.

Lemma run100k_step (k : nat) (g : rng) :
  exists row,
    lve100k_cycle p k (LVE100k.run_cycles p k g)
                  (LVE100k.run_cycles p (S k) g) row.
Proof. rewrite run100k_S. apply loop_body100k_spec. Qed.

Lemma run100k_log_length (k : nat) (g : rng) :
  length (LVE100k.log (LVE100k.run_cycles p k g)) = k.
Proof.
  induction k as [|k IH]; [reflexivity|].
  destruct (run100k_step k g) as [row Hc].
  rewrite (cc_log _ _ _ _ _ Hc), length_app, IH. simpl. lia.
Qed.

(** The row found at position [i] of a later log is the row cycle [i]
    appended. *)
Lemma run100k_log_row (K : nat) (g : rng) (i : nat) (r : CycleRecord) :
  nth_error (LVE100k.log (LVE100k.run_cycles p K g)) i = Some r ->
  lve100k_cycle p i (LVE100k.run_cycles p i g)
                (LVE100k.run_cycles p (S i) g) r.
Proof.
  induction K as [|K IH]; intro Hr.
  - destruct i; discriminate Hr.
  - destruct (run100k_step K g) as [row Hc].
    pose proof (run100k_log_length K g) as Hlen.
    rewrite (cc_log _ _ _ _ _ Hc) in Hr.
    destruct (Nat.lt_ge_cases i K) as [Hlt|Hge].
    + rewrite nth_error_app1 in Hr by lia. exact (IH Hr).
    + rewrite nth_error_app2 in Hr by lia. rewrite Hlen in Hr.
      destruct (i - K)%nat as [|d] eqn:Hd; [|destruct d; discriminate Hr].
      injection Hr as <-. assert (i = K) as -> by lia. exact Hc.
Qed.

End LVE100kFacts.

(** ** Bursts: counting and tagging *)

(** The effect of a cycle that takes the mass from above the core into
    [[0, M_PLANCK_CORE]]: the seeded engine counts it and resets the mass;
    latent_vacuum_engine.py records it and resets the mass when its latch
    is clear. *)
Lemma burst_cycle_effect `{NumpyRandom} (p : Params) (g : rng)
    (k : nat) :
  params_ok p ->
  (M_PLANCK_CORE p < LVE100k.M (LVE100k.run_cycles p k g) ->
   0 <= post_step p (LVE100k.M (LVE100k.run_cycles p k g))
     <= M_PLANCK_CORE p ->
   LVE100k.white_hole_count (LVE100k.run_cycles p (S k) g) =
     (LVE100k.white_hole_count (LVE100k.run_cycles p k g) + 1)%Z /\
   length (LVE100k.anomalies (LVE100k.run_cycles p (S k) g)) =
     S (length (LVE100k.anomalies (LVE100k.run_cycles p k g))) /\
   LVE100k.M (LVE100k.run_cycles p (S k) g) = M_initial p) /\
  (forall s s',
     LVE.run_cycles p k g = inr s ->
     LVE.run_cycles p (S k) g = inr s' ->
     LVE.white_hole_triggered s = false ->
     M_PLANCK_CORE p < LVE.M s ->
     0 <= post_step p (LVE.M s) <= M_PLANCK_CORE p ->
     length (LVE.anomalies s') = S (length (LVE.anomalies s)) /\
     LVE.M s' = M_initial p).
Proof.
  intros (_ & _ & _ & HN). split.
  - intros _ [_ Hle]. destruct (run100k_step p HN k g) as [row Hc].
    rewrite (cc_count _ _ _ _ _ Hc), (cc_anom _ _ _ _ _ Hc),
      (cc_M _ _ _ _ _ Hc).
    destruct (Rle_dec _ _); [|contradiction].
    rewrite length_app. simpl. split; [reflexivity|]. split; [lia | reflexivity].
  - intros s s' Hs Hs' Ht _ [_ Hle].
    destruct (run_cycles_step p HN k g s' Hs') as (s0 & row & Hs0 & Hc).
    rewrite Hs in Hs0. injection Hs0 as <-.
    destruct (lve_cycle_unlatched p k s s' row Hc Ht Hle) as (_ & HM & _ & HA).
    rewrite HA, length_app. simpl. split; [lia | exact HM].
Qed.

(** When a row carries WHITE_HOLE_BURST: in the seeded engine exactly
    when the post-step mass of its cycle is at or below the core, in
    latent_vacuum_engine.py exactly when, in addition, the latch is
    clear. *)
Lemma burst_tag_cases `{NumpyRandom} (p : Params) (g : rng) (K k : nat)
    (row : CycleRecord) :
  params_ok p ->
  (nth_error (LVE100k.log (LVE100k.run_cycles p K g)) k = Some row ->
   (has_tag "WHITE_HOLE_BURST" (row_anomaly row) = true <->
    post_step p (LVE100k.M (LVE100k.run_cycles p k g)) <= M_PLANCK_CORE p)) /\
  (forall sK s,
     LVE.run_cycles p K g = inr sK ->
     nth_error (LVE.log sK) k = Some row ->
     LVE.run_cycles p k g = inr s ->
     (has_tag "WHITE_HOLE_BURST" (row_anomaly row) = true <->
      post_step p (LVE.M s) <= M_PLANCK_CORE p /\
      LVE.white_hole_triggered s = false)).
Proof.
  intros (_ & _ & _ & HN). split.
  - intro Hr. pose proof (run100k_log_row p HN K g k row Hr) as Hc.
    rewrite (cc_tag _ _ _ _ _ Hc).
    destruct (Rle_dec _ _); split; intro; (assumption || reflexivity
      || discriminate || contradiction).
  - intros sK s HK Hr Hs.
    destruct (run_log_row p HN K g sK k row HK Hr) as (s0 & s' & Hs0 & _ & Hc).
    rewrite Hs in Hs0. injection Hs0 as <-.
    rewrite (lc_tag _ _ _ _ _ Hc). unfold lve_burst.
    destruct (Rle_dec _ _), (LVE.white_hole_triggered s); cbn [negb];
      split; intro Hx; try discriminate; try (destruct Hx; discriminate);
      try (destruct Hx; contradiction); auto.
Qed.

(** ** Positivity of the mass *)

Section MassPositive.
Context `{NumpyRandom}.
Variable p : Params.
Hypothesis p_ok : params_ok p.
(* the largest decrement of a decay step is smaller than the core mass *)
Hypothesis small_step :
  dt p / (15360 * PI * M_PLANCK_CORE p ^ 2) < M_PLANCK_CORE p.

Lemma decay_step_bound (M : R) :
  M_PLANCK_CORE p < M ->
  M - post_step p M <= dt p / (15360 * PI * M_PLANCK_CORE p ^ 2).
Proof.
  destruct p_ok as (_ & Hc & Hd & _). intro HM.
  unfold post_step. rewrite update_mass_above by exact HM.
  pose proof (evap_den_pos (M_PLANCK_CORE p)) as Hdc.
  pose proof (evap_den_pos M) as HdM.
  assert (15360 * PI * M_PLANCK_CORE p ^ 2 <= 15360 * PI * M ^ 2) as Hle.
  { pose proof PI_RGT_0. simpl. rewrite !Rmult_1_r.
    apply Rmult_le_compat_l; [lra | nra]. }
  assert (/ (15360 * PI * M ^ 2) <= / (15360 * PI * M_PLANCK_CORE p ^ 2))
    as Hinv by (apply Rinv_le_contravar; [apply Hdc; lra | exact Hle]).
  unfold Rdiv. nra.
Qed.

Lemma post_step_pos (M : R) : 0 < M -> 0 < post_step p M.
Proof.
  intro HM. destruct (Rle_lt_dec M (M_PLANCK_CORE p)) as [Hle|Hlt].
  - unfold post_step. now rewrite update_mass_frozen.
  - pose proof (decay_step_bound M Hlt). lra.
Qed.

Lemma lve_mass_pos (k : nat) (g : rng) (s : LVE.State) :
  LVE.run_cycles p k g = inr s -> 0 < LVE.M s.
Proof.
  destruct p_ok as (H0 & _ & _ & HN).
  revert s. induction k as [|k IH]; intros s Hs.
  - injection Hs as <-. exact H0.
  - destruct (run_cycles_step p HN k g s Hs) as (s0 & row & Hs0 & Hc).
    rewrite (lc_M _ _ _ _ _ Hc).
    destruct (lve_burst p s0); [exact H0 | apply post_step_pos; auto].
Qed.

Lemma lve100k_mass_pos (k : nat) (g : rng) :
  0 < LVE100k.M (LVE100k.run_cycles p k g).
Proof.
  destruct p_ok as (H0 & _ & _ & HN).
  induction k as [|k IH]; [exact H0|].
  destruct (run100k_step p HN k g) as [row Hc].
  rewrite (cc_M _ _ _ _ _ Hc).
  destruct (Rle_dec _ _); [exact H0 | apply post_step_pos; exact IH].
Qed.

End MassPositive.

Lemma lve_params_ok : params_ok lve_params.
Proof. unfold params_ok. simpl. repeat split; try lra; lia. Qed.

Lemma lve100k_params_ok : params_ok lve100k_params.
Proof. unfold params_ok. simpl. repeat split; try lra; lia. Qed.

(** The largest decrement with the shipped constants:
    1 / (15360 pi 0.05^2) = 1 / (38.4 pi), about 0.0083. *)
Lemma shipped_small_step :
  0.0082 < 1 / (15360 * PI * 0.05 ^ 2) < 0.0083.
Proof.
  destruct PI_bounds as [Hlo Hhi].
  replace (15360 * PI * 0.05 ^ 2) with (38.4 * PI) by (simpl; lra).
  assert (/ (38.4 * PI) < / (38.4 * 3.1415))
    by (apply Rinv_lt_contravar; nra).
  assert (/ (38.4 * 3.1421) < / (38.4 * PI))
    by (apply Rinv_lt_contravar; nra).
  unfold Rdiv. lra.
Qed.

(** C10. With the shipped constants ([M_initial = 1], core 0.05, time step
    1) a decay step subtracts at most 1/(15360 pi 0.05^2), which lies
    between 0.0082 and 0.0083 and so below the core mass, and in
    both engines the mass at the start of every cycle and the mass after
    its evolution step are strictly positive, so [apply_dce_drive] is
    only ever called on its positive-mass branch. *)
Theorem mass_stays_positive `{NumpyRandom} (g : rng) (k : nat) :
  (forall M, 0.05 < M ->
     M - post_step lve_params M <= 1 / (15360 * PI * 0.05 ^ 2) /\
     0.0082 < 1 / (15360 * PI * 0.05 ^ 2) < 0.0083) /\
  (exists s, LVE.run_cycles lve_params k g = inr s /\
     0 < LVE.M s /\ 0 < post_step lve_params (LVE.M s) /\
     forall V, apply_dce_drive lve_params V (LVE.M s) =
               DCE_DRIVE_BASE lve_params * V / LVE.M s ^ 3) /\
  (0 < LVE100k.M (LVE100k.run_cycles lve100k_params k g) /\
   0 < post_step lve100k_params
         (LVE100k.M (LVE100k.run_cycles lve100k_params k g)) /\
   forall V, apply_dce_drive lve100k_params V
               (LVE100k.M (LVE100k.run_cycles lve100k_params k g)) =
             DCE_DRIVE_BASE lve100k_params * V /
             LVE100k.M (LVE100k.run_cycles lve100k_params k g) ^ 3).
Proof.
  pose proof shipped_small_step as Hs.
  assert (dt lve_params / (15360 * PI * M_PLANCK_CORE lve_params ^ 2)
          < M_PLANCK_CORE lve_params) as Hs1.
  { cbn [dt M_PLANCK_CORE lve_params].
    replace (1.0 / (15360 * PI * 0.05 ^ 2))
      with (1 / (15360 * PI * 0.05 ^ 2)) by (unfold Rdiv; lra). lra. }
  assert (dt lve100k_params / (15360 * PI * M_PLANCK_CORE lve100k_params ^ 2)
          < M_PLANCK_CORE lve100k_params) as Hs2 by exact Hs1.
  split; [|split].
  - intros M HM. split; [|exact Hs].
    pose proof (decay_step_bound lve_params lve_params_ok M HM) as Hb.
    cbn [dt M_PLANCK_CORE lve_params] in Hb.
    replace (1.0 / (15360 * PI * 0.05 ^ 2))
      with (1 / (15360 * PI * 0.05 ^ 2)) in Hb by (unfold Rdiv; lra).
    exact Hb.
  - destruct (run_cycles_total lve_params (proj2 (proj2 (proj2 lve_params_ok)))
                k g) as [s Hrun].
    pose proof (lve_mass_pos lve_params lve_params_ok Hs1 k g s Hrun) as Hpos.
    exists s. split; [exact Hrun|]. split; [exact Hpos|].
    split; [now apply (post_step_pos lve_params lve_params_ok Hs1)|].
    intro V. now apply apply_dce_drive_pos.
  - pose proof (lve100k_mass_pos lve100k_params lve100k_params_ok Hs2 k g)
      as Hpos.
    split; [exact Hpos|].
    split; [now apply (post_step_pos lve100k_params lve100k_params_ok Hs2)|].
    intro V. now apply apply_dce_drive_pos.
Qed.

Lemma mass_stays_positive_witness :
  1 - post_step lve_params 1 <= 1 / (15360 * PI * 0.05 ^ 2) /\
  exists s, LVE.run_cycles (H := lcg_random) lve_params 1000 42%Z = inr s /\
            0 < LVE.M s.
Proof.
  destruct (mass_stays_positive (H := lcg_random) 42%Z 1000)
    as (Hstep & (s & Hs & Hpos & _) & _).
  split.
  - apply (Hstep 1). lra.
  - exists s. split; [exact Hs | exact Hpos].
Defined.

(** ** The state generator *)

(** The three scripts define the same generator. *)
Lemma generators_agree (n : Z) :
  LVE100k.ghz_state n = LVE.generate_ghz_full n /\
  Wieger3.latent_state n = LVE.generate_ghz_full n.
Proof. split; reflexivity. Qed.

(** A negative mode count is not rejected by the generator: what fails is
    [qt.tensor] on the empty list [[zero] * n], with an IndexError, in
    all three scripts; that is not the invalid-input error. *)
Lemma negative_mode_count_raises_index_error :
  LVE.generate_ghz_full (-1) = inl IndexError /\
  LVE100k.ghz_state (-1) = inl IndexError /\
  Wieger3.latent_state (-1) = inl IndexError /\
  LVE.generate_ghz_full (-1) <> inl InvalidInput.
Proof.
  destruct (generators_agree (-1)) as [-> ->].
  rewrite GhzFacts.generate_ghz_full_neg by lia.
  repeat split. discriminate.
Qed.

(** C8, amended. For every [n >= 0] the state generator returns a state,
    for [n = 0] the one-mode vacuum [fock(1, 0)]; for every negative [n]
    it fails with the IndexError that [qt.tensor] raises on the empty
    list [[zero] * n].  The generator checks nothing itself.  The same
    holds for the copies of the generator in the other two scripts. *)
Theorem generator_total_on_nonneg (n : Z) :
  ((0 <= n)%Z ->
   exists psi,
     LVE.generate_ghz_full n = inr psi /\
     LVE100k.ghz_state n = inr psi /\
     Wieger3.latent_state n = inr psi /\
     (n = 0%Z -> psi = Qutip.fock 1 0 /\
                 Qutip.dims psi = ([1%Z], [1%Z]) /\ Qutip.data psi = [1])) /\
  ((n < 0)%Z ->
   LVE.generate_ghz_full n = inl IndexError /\
   LVE100k.ghz_state n = inl IndexError /\
   Wieger3.latent_state n = inl IndexError).
Proof.
  destruct (generators_agree n) as [-> ->]. split.
  - intro Hn. destruct (generate_ghz_full_ok n Hn) as (psi & Hg & _).
    exists psi. repeat split; try exact Hg;
      subst n; rewrite GhzFacts.generate_ghz_full_zero in Hg;
      injection Hg as <-; reflexivity.
  - intro Hn. rewrite GhzFacts.generate_ghz_full_neg by exact Hn. auto.
Qed.

Lemma generator_total_on_nonneg_witness :
  (exists psi, LVE.generate_ghz_full 3 = inr psi) /\
  LVE.generate_ghz_full 0 = inr (Qutip.fock 1 0) /\
  LVE.generate_ghz_full (-1) = inl IndexError.
Proof.
  split; [|split].
  - destruct (proj1 (generator_total_on_nonneg 3)) as (psi & Hg & _); [lia|].
    now exists psi.
  - destruct (proj1 (generator_total_on_nonneg 0)) as (psi & Hg & _ & _ & Hz);
      [lia|].
    destruct (Hz eq_refl) as (-> & _). exact Hg.
  - apply (proj2 (generator_total_on_nonneg (-1))). lia.
Defined.

(** ** Area of generated states *)

(** C7. For every mode count [n] in [[0, N_MAX]] the area computed from
    the generated state equals [max(n, 1) * 2 pi] (so it is within 1e-10
    of it), for [n = 0] it is [2 pi] and not 0, and no row of a run of
    either engine carries the area-drift tag. *)
Theorem area_matches_expected `{NumpyRandom} (p : Params) (g : rng) (n : Z) :
  params_ok p ->
  (0 <= n <= N_MAX p)%Z ->
  (exists psi,
     LVE.generate_ghz_full n = inr psi /\
     LVE.compute_total_wigner_area psi = IZR (Z.max n 1) * 2 * PI /\
     Rabs (LVE.compute_total_wigner_area psi - IZR (Z.max n 1) * 2 * PI)
       <= 1e-10) /\
  (LVE.compute_total_wigner_area (Qutip.fock 1 0) = 2 * PI /\
   LVE.compute_total_wigner_area (Qutip.fock 1 0) <> 0) /\
  (forall K sK row,
     LVE.run_cycles p K g = inr sK -> In row (LVE.log sK) ->
     has_tag "VACUUM_STRUCTURE_DRIFT" (row_anomaly row) = false /\
     Rabs (row_area_sim row - row_area_expected row) <= 1e-10) /\
  (forall K row,
     In row (LVE100k.log (LVE100k.run_cycles p K g)) ->
     has_tag "AREA_DRIFT" (row_anomaly row) = false /\
     Rabs (row_area_sim row - row_area_expected row) <= 1e-10).
Proof.
  intros (_ & _ & _ & HN) [Hn _].
  assert (forall x, Rabs (x - x) <= 1e-10) as Hzero
    by (intro x; rewrite Rminus_diag, Rabs_R0; lra).
  split; [|split; [|split]].
  - destruct (generate_ghz_full_ok n Hn) as (psi & Hg & Ha).
    exists psi. rewrite Ha. auto.
  - assert (LVE.compute_total_wigner_area (Qutip.fock 1 0) = 2 * PI) as E.
    { rewrite (GhzFacts.area_of_generated 0 (Qutip.fock 1 0)) by
        (reflexivity || lia). change (Z.max 0 1) with 1%Z. lra. }
    rewrite E. pose proof PI_RGT_0. split; [reflexivity | lra].
  - intros K sK row HK Hin.
    destruct (In_nth_error _ _ Hin) as [i Hi].
    destruct (run_log_row p HN K g sK i row HK Hi) as (s & s' & _ & _ & Hc).
    rewrite (lc_area _ _ _ _ _ Hc).
    split; [exact (lc_drift _ _ _ _ _ Hc) | apply Hzero].
  - intros K row Hin.
    destruct (In_nth_error _ _ Hin) as [i Hi].
    pose proof (run100k_log_row p HN K g i row Hi) as Hc.
    rewrite (cc_area _ _ _ _ _ Hc).
    split; [exact (cc_drift _ _ _ _ _ Hc) | apply Hzero].
Qed.

Lemma area_matches_expected_witness :
  exists psi,
    LVE.generate_ghz_full 6 = inr psi /\
    LVE.compute_total_wigner_area psi = IZR (Z.max 6 1) * 2 * PI.
Proof.
  assert (0 <= 6 <= N_MAX lve_params)%Z as Hn by (simpl; lia).
  destruct (area_matches_expected (H := lcg_random) lve_params 42%Z 6
              lve_params_ok Hn) as ((psi & Hg & Ha & _) & _).
  exists psi. split; [exact Hg | exact Ha].
Defined.

(** ** The shipped 1000-cycle run *)

(** Near mass 1 a decay step of the shipped constants subtracts less than
    1/30000. *)
Lemma shipped_step_small (M : R) :
  0.9 <= M -> M <= 1 ->
  M - 1 / 30000 <= post_step lve_params M /\ post_step lve_params M <= M.
Proof.
  intros Hlo Hhi. unfold post_step.
  rewrite update_mass_above by (simpl; lra). cbn [dt lve_params].
  destruct PI_bounds as [Hpi _].
  assert (30000 < 15360 * PI * M ^ 2) as Hden by (simpl; nra).
  assert (/ (15360 * PI * M ^ 2) < / 30000) as Hinv
    by (apply Rinv_lt_contravar; nra).
  assert (0 < / (15360 * PI * M ^ 2)) by (apply Rinv_0_lt_compat; lra).
  unfold Rdiv. lra.
Qed.

(** latent_vacuum_engine.py as shipped: during its 1000 cycles the mass
    stays above 0.96, so the core is never reached and no burst is
    recorded. *)
Lemma shipped_lve_no_burst `{NumpyRandom} (g : rng) (k : nat)
    (s : LVE.State) :
  (k <= 1000)%nat ->
  LVE.run_cycles lve_params k g = inr s ->
  1 - INR k / 30000 <= LVE.M s <= 1 /\
  LVE.white_hole_triggered s = false /\
  LVE.anomalies s = [] /\
  forall row, In row (LVE.log s) ->
    has_tag "WHITE_HOLE_BURST" (row_anomaly row) = false.
Proof.
  assert (0 <= N_MAX lve_params)%Z as HN by (simpl; lia).
  revert s. induction k as [|k IH]; intros s Hk Hs.
  - injection Hs as <-. cbn. repeat split; try lra. intros row [].
  - destruct (run_cycles_step lve_params HN k g s Hs) as (s0 & row & Hs0 & Hc).
    destruct (IH s0 ltac:(lia) Hs0) as ([Hlo Hhi] & Ht & Ha & Hrows).
    assert (INR (S k) <= 1000) as Hk'.
    { apply le_INR in Hk. rewrite (INR_IZR_INZ 1000) in Hk.
      change (Z.of_nat 1000) with 1000%Z in Hk. exact Hk. }
    rewrite S_INR in *.
    destruct (shipped_step_small (LVE.M s0)) as [Hs1 Hs2]; [lra | lra |].
    assert (lve_burst lve_params s0 = false) as Hb.
    { unfold lve_burst. destruct (Rle_dec _ _) as [Hle|_]; [|reflexivity].
      cbn [M_PLANCK_CORE lve_params] in Hle. lra. }
    rewrite (lc_M _ _ _ _ _ Hc), (lc_trig _ _ _ _ _ Hc), (lc_anom _ _ _ _ _ Hc),
      (lc_log _ _ _ _ _ Hc), Hb, Ht, Ha.
    repeat split; try lra.
    intros r Hin. apply in_app_or in Hin. destruct Hin as [Hin|[<-|[]]].
    + now apply Hrows.
    + now rewrite (lc_tag _ _ _ _ _ Hc).
Qed.

(** C1. A cycle that takes the mass from above the core into
    [[0, M_PLANCK_CORE]] increments the burst counter of the seeded engine
    by exactly 1, records one burst, and leaves [M_initial] as the mass
    the next cycle starts from.  latent_vacuum_engine.py records one
    burst and resets the mass likewise in every cycle that starts with
    its latch clear; in the run the script performs (its constants, 1000
    cycles) the latch is clear at the start of every cycle, so there
    every such cycle records one burst and resets the mass. *)
Theorem burst_resets_and_counts `{NumpyRandom} (g : rng) (k : nat) :
  (forall p, params_ok p ->
     M_PLANCK_CORE p < LVE100k.M (LVE100k.run_cycles p k g) ->
     0 <= post_step p (LVE100k.M (LVE100k.run_cycles p k g))
       <= M_PLANCK_CORE p ->
     LVE100k.white_hole_count (LVE100k.run_cycles p (S k) g) =
       (LVE100k.white_hole_count (LVE100k.run_cycles p k g) + 1)%Z /\
     length (LVE100k.anomalies (LVE100k.run_cycles p (S k) g)) =
       S (length (LVE100k.anomalies (LVE100k.run_cycles p k g))) /\
     LVE100k.M (LVE100k.run_cycles p (S k) g) = M_initial p) /\
  (forall p s s', params_ok p ->
     LVE.run_cycles p k g = inr s ->
     LVE.run_cycles p (S k) g = inr s' ->
     LVE.white_hole_triggered s = false ->
     M_PLANCK_CORE p < LVE.M s ->
     0 <= post_step p (LVE.M s) <= M_PLANCK_CORE p ->
     length (LVE.anomalies s') = S (length (LVE.anomalies s)) /\
     LVE.M s' = M_initial p) /\
  ((k < 1000)%nat -> forall s s',
     LVE.run_cycles lve_params k g = inr s ->
     LVE.run_cycles lve_params (S k) g = inr s' ->
     LVE.white_hole_triggered s = false /\
     (M_PLANCK_CORE lve_params < LVE.M s ->
      0 <= post_step lve_params (LVE.M s) <= M_PLANCK_CORE lve_params ->
      length (LVE.anomalies s') = S (length (LVE.anomalies s)) /\
      LVE.M s' = M_initial lve_params)).
Proof.
  split; [|split].
  - intros p Hp. exact (proj1 (burst_cycle_effect p g k Hp)).
  - intros p s s' Hp. exact (proj2 (burst_cycle_effect p g k Hp) s s').
  - intros Hk s s' Hs Hs'.
    destruct (shipped_lve_no_burst g k s ltac:(lia) Hs) as (_ & Ht & _).
    split; [exact Ht|]. intros Habove Hin.
    exact (proj2 (burst_cycle_effect lve_params g k lve_params_ok)
             s s' Hs Hs' Ht Habove Hin).
Qed.

Lemma burst_resets_and_counts_witness :
  (LVE100k.white_hole_count
     (LVE100k.run_cycles (H := lcg_random) coarse_params 1 7%Z) =
   (LVE100k.white_hole_count
      (LVE100k.run_cycles (H := lcg_random) coarse_params 0 7%Z) + 1)%Z /\
   length (LVE100k.anomalies
             (LVE100k.run_cycles (H := lcg_random) coarse_params 1 7%Z)) =
   S (length (LVE100k.anomalies
                (LVE100k.run_cycles (H := lcg_random) coarse_params 0 7%Z))) /\
   LVE100k.M (LVE100k.run_cycles (H := lcg_random) coarse_params 1 7%Z) =
   M_initial coarse_params) /\
  (exists s s',
     LVE.run_cycles (H := lcg_random) coarse_params 0 7%Z = inr s /\
     LVE.run_cycles (H := lcg_random) coarse_params 1 7%Z = inr s' /\
     length (LVE.anomalies s') = S (length (LVE.anomalies s)) /\
     LVE.M s' = M_initial coarse_params) /\
  (exists s s',
     LVE.run_cycles (H := lcg_random) lve_params 999 42%Z = inr s /\
     LVE.run_cycles (H := lcg_random) lve_params 1000 42%Z = inr s' /\
     LVE.white_hole_triggered s = false).
Proof.
  destruct (burst_resets_and_counts (H := lcg_random) 7%Z 0) as (HA & HB & _).
  destruct (burst_resets_and_counts (H := lcg_random) 42%Z 999) as (_ & _ & HC).
  destruct coarse_post_step as (_ & Hpos & Hle).
  assert (M_PLANCK_CORE coarse_params < 1.0) as Habove by (simpl; lra).
  assert (0 <= post_step coarse_params 1.0 <= M_PLANCK_CORE coarse_params)
    as Hin by (split; [lra | exact Hle]).
  split; [|split].
  - apply (HA coarse_params coarse_params_ok); assumption.
  - destruct (coarse_run (H := lcg_random) 7%Z)
      as (s1 & _ & _ & _ & Hs1 & _).
    exists (LVE.init (H := lcg_random) coarse_params 7%Z), s1.
    split; [reflexivity|]. split; [exact Hs1|].
    apply (HB coarse_params _ _ coarse_params_ok);
      [reflexivity | exact Hs1 | reflexivity | assumption..].
  - assert (0 <= N_MAX lve_params)%Z as HN by (simpl; lia).
    destruct (run_cycles_total (H := lcg_random) lve_params HN 1000 42%Z)
      as [s' Hs'].
    destruct (run_cycles_step (H := lcg_random) lve_params HN 999 42%Z s' Hs')
      as (s & row & Hs & _).
    exists s, s'. split; [exact Hs|]. split; [exact Hs'|].
    apply (HC ltac:(lia) s s' Hs Hs').
Defined.

(** C2. A row of the seeded engine carries WHITE_HOLE_BURST exactly when
    the post-step mass of its cycle is at or below the core.  A row of
    latent_vacuum_engine.py carries it exactly when the post-step mass is
    at or below the core and the latch is clear; in the run the script
    performs (its constants, up to 1000 cycles) the latch is always
    clear, so there a row carries the tag exactly when the post-step mass
    is at or below the core. *)
Theorem burst_tag_iff `{NumpyRandom} (g : rng) (K k : nat)
    (row : CycleRecord) :
  (forall p, params_ok p ->
     nth_error (LVE100k.log (LVE100k.run_cycles p K g)) k = Some row ->
     (has_tag "WHITE_HOLE_BURST" (row_anomaly row) = true <->
      post_step p (LVE100k.M (LVE100k.run_cycles p k g))
        <= M_PLANCK_CORE p)) /\
  (forall p sK s, params_ok p ->
     LVE.run_cycles p K g = inr sK ->
     nth_error (LVE.log sK) k = Some row ->
     LVE.run_cycles p k g = inr s ->
     (has_tag "WHITE_HOLE_BURST" (row_anomaly row) = true <->
      post_step p (LVE.M s) <= M_PLANCK_CORE p /\
      LVE.white_hole_triggered s = false)) /\
  ((K <= 1000)%nat -> forall sK s,
     LVE.run_cycles lve_params K g = inr sK ->
     nth_error (LVE.log sK) k = Some row ->
     LVE.run_cycles lve_params k g = inr s ->
     (has_tag "WHITE_HOLE_BURST" (row_anomaly row) = true <->
      post_step lve_params (LVE.M s) <= M_PLANCK_CORE lve_params)).
Proof.
  split; [|split].
  - intros p Hp. exact (proj1 (burst_tag_cases p g K k row Hp)).
  - intros p sK s Hp. exact (proj2 (burst_tag_cases p g K k row Hp) sK s).
  - intros HK sK s HsK Hr Hs.
    assert (0 <= N_MAX lve_params)%Z as HN by (simpl; lia).
    assert (k < K)%nat as Hk.
    { rewrite <- (run_log_length lve_params HN K g sK HsK).
      apply nth_error_Some. rewrite Hr. discriminate. }
    destruct (shipped_lve_no_burst g k s ltac:(lia) Hs) as (_ & Ht & _).
    rewrite (proj2 (burst_tag_cases lve_params g K k row lve_params_ok)
               sK s HsK Hr Hs).
    split; [intros [Hle _]; exact Hle | intro Hle; split; [exact Hle | exact Ht]].
Qed.

Lemma burst_tag_iff_witness :
  (exists sK r0,
     LVE.main (H := lcg_random) coarse_params 42%Z = inr sK /\
     nth_error (LVE.log sK) 0 = Some r0 /\
     has_tag "WHITE_HOLE_BURST" (row_anomaly r0) = true) /\
  (exists r0',
     nth_error (LVE100k.log (LVE100k.main (H := lcg_random) coarse_params 42%Z))
               0 = Some r0' /\
     has_tag "WHITE_HOLE_BURST" (row_anomaly r0') = true) /\
  (exists sK r0,
     LVE.main (H := lcg_random) lve_params 42%Z = inr sK /\
     nth_error (LVE.log sK) 0 = Some r0 /\
     (has_tag "WHITE_HOLE_BURST" (row_anomaly r0) = true <->
      post_step lve_params 1.0 <= 0.05)).
Proof.
  assert (0 <= N_MAX coarse_params)%Z as HN by (simpl; lia).
  assert (0 <= N_MAX lve_params)%Z as HN' by (simpl; lia).
  destruct coarse_post_step as (_ & _ & Hle).
  unfold LVE.main, LVE100k.main.
  change (Z.to_nat (CYCLES coarse_params)) with 4%nat.
  split; [|split].
  - destruct (run_cycles_total (H := lcg_random) coarse_params HN 4 42%Z)
      as [sK HK].
    destruct (nth_error_in_log (H := lcg_random) coarse_params 4 42%Z sK 0 HN HK)
      as [r0 Hr0]; [lia|].
    exists sK, r0. split; [exact HK|]. split; [exact Hr0|].
    apply (proj1 (proj2 (burst_tag_iff (H := lcg_random) 42%Z 4 0 r0))
             coarse_params sK (LVE.init (H := lcg_random) coarse_params 42%Z)
             coarse_params_ok HK Hr0 eq_refl).
    split; [exact Hle | reflexivity].
  - destruct (nth_error (LVE100k.log
               (LVE100k.run_cycles (H := lcg_random) coarse_params 4 42%Z)) 0)
      as [r0'|] eqn:E.
    + exists r0'. split; [reflexivity|].
      apply (proj1 (burst_tag_iff (H := lcg_random) 42%Z 4 0 r0')
               coarse_params coarse_params_ok E).
      exact Hle.
    + apply nth_error_None in E.
      rewrite (run100k_log_length (H := lcg_random) coarse_params HN 4 42%Z) in E.
      lia.
  - set (K := Z.to_nat (CYCLES lve_params)).
    assert (K = 1000%nat) as EK by reflexivity.
    destruct (run_cycles_total (H := lcg_random) lve_params HN' K 42%Z)
      as [sK HK].
    destruct (nth_error_in_log (H := lcg_random) lve_params K 42%Z sK 0 HN' HK)
      as [r0 Hr0]; [lia|].
    exists sK, r0. split; [exact HK|]. split; [exact Hr0|].
    apply (proj2 (proj2 (burst_tag_iff (H := lcg_random) 42%Z K 0 r0))
             ltac:(lia) sK (LVE.init (H := lcg_random) lve_params 42%Z)
             HK Hr0 eq_refl).
Defined.

(** * Further properties of the scripts *)

(** ** Two bounds used below *)

Lemma DCE_FACTOR_pos : 0 < DCE_FACTOR.
Proof.
  unfold DCE_FACTOR. pose proof PI_RGT_0.
  apply Rdiv_lt_0_compat; lra.
Qed.

Lemma post_step_le (p : Params) (M : R) :
  0 < M_PLANCK_CORE p -> 0 < dt p -> post_step p M <= M.
Proof.
  intros Hc Hd. unfold post_step.
  destruct (Rle_lt_dec M (M_PLANCK_CORE p)) as [Hle|Hlt].
  - rewrite update_mass_frozen by exact Hle. lra.
  - rewrite update_mass_above by exact Hlt.
    assert (0 < 15360 * PI * M ^ 2) by (apply evap_den_pos; lra).
    assert (0 < dt p / (15360 * PI * M ^ 2))
      by (apply Rdiv_lt_0_compat; assumption).
    lra.
Qed.

(** ** The seeded engine: rows, counter and report *)

Section Seeded.
Context `{NumpyRandom}.
Variable p : Params.
Hypothesis N_MAX_ok : (0 <= N_MAX p)%Z.

(** The columns of the row a pass of the body appends that [lve100k_cycle]
    does not describe. *)
Lemma loop_body100k_row (k : nat) (s : LVE100k.State) :
  exists row,
    LVE100k.log (LVE100k.loop_body p k s) = LVE100k.log s ++ [row] /\
    row_V_hom row = T_HOM p /\
    row_f_dot row = apply_dce_drive p (T_HOM p) (LVE100k.M s) /\
    row_dNdt row = compute_dNdt (row_f_dot row) /\
    row_dMdt row = (post_step p (LVE100k.M s) - LVE100k.M s) / dt p /\
    row_anomaly row =
      ((if Rgt_dec (row_dNdt row) 1e-6 then "DCE_ANOMALY " else "") ++
       (if Rle_dec (post_step p (LVE100k.M s)) (M_PLANCK_CORE p)
        then "WHITE_HOLE_BURST " else ""))%string.
Proof.
  unfold LVE100k.loop_body.
  destruct (np_random_randint 0 (N_MAX p + 1) (LVE100k.gen s)) as [n g'].
  cbv zeta.
  destruct (Rgt_dec (Rabs _) _) as [Habs|_]; [now apply no_drift in Habs|].
  fold (post_step p (LVE100k.M s)). unfold measure_hom_visibility.
  destruct (Rle_dec (post_step p (LVE100k.M s)) (M_PLANCK_CORE p));
    eexists; (split; [reflexivity|]);
    cbn [row_V_hom row_f_dot row_dNdt row_dMdt row_anomaly];
    repeat (split; [reflexivity|]);
    destruct (Rgt_dec _ _); reflexivity.
Qed.

(** The row at position [i] of a log, with all its columns. *)
Lemma run100k_row_columns (K : nat) (g : rng) (i : nat) (r : CycleRecord) :
  nth_error (LVE100k.log (LVE100k.run_cycles p K g)) i = Some r ->
  row_V_hom r = T_HOM p /\
  row_f_dot r =
    apply_dce_drive p (T_HOM p) (LVE100k.M (LVE100k.run_cycles p i g)) /\
  row_dNdt r = compute_dNdt (row_f_dot r) /\
  row_dMdt r =
    (post_step p (LVE100k.M (LVE100k.run_cycles p i g))
     - LVE100k.M (LVE100k.run_cycles p i g)) / dt p /\
  row_anomaly r =
    ((if Rgt_dec (row_dNdt r) 1e-6 then "DCE_ANOMALY " else "") ++
     (if Rle_dec (post_step p (LVE100k.M (LVE100k.run_cycles p i g)))
                 (M_PLANCK_CORE p)
      then "WHITE_HOLE_BURST " else ""))%string.
Proof.
  intro Hr. pose proof (run100k_log_row p N_MAX_ok K g i r Hr) as Hc.
  destruct (loop_body100k_row i (LVE100k.run_cycles p i g))
    as (row & Hlog & Hcols).
  rewrite <- (run100k_S p i g), (cc_log _ _ _ _ _ Hc) in Hlog.
  apply app_inj_tail in Hlog. destruct Hlog as [_ ->]. exact Hcols.
Qed.

Lemma burst_cycles_app (l : list CycleRecord) (r : CycleRecord) :
  burst_cycles (l ++ [r]) =
  burst_cycles l ++
  (if has_tag "WHITE_HOLE_BURST" (row_anomaly r) then [row_cycle r] else []).
Proof.
  unfold burst_cycles. rewrite filter_app, map_app. cbn [filter].
  now destruct (has_tag _ _).
Qed.

(** The counter, the burst list and the tagged rows move together. *)
Lemma seeded_counter_inv (k : nat) (g : rng) :
  LVE100k.white_hole_count (LVE100k.run_cycles p k g) =
    Z.of_nat (length (LVE100k.anomalies (LVE100k.run_cycles p k g))) /\
  map (fun e => fst (fst e)) (LVE100k.anomalies (LVE100k.run_cycles p k g)) =
    burst_cycles (LVE100k.log (LVE100k.run_cycles p k g)) /\
  map (fun e => snd (fst e)) (LVE100k.anomalies (LVE100k.run_cycles p k g)) =
    map Z.of_nat
        (seq 1 (length (LVE100k.anomalies (LVE100k.run_cycles p k g)))) /\
  Forall (fun e => snd e = WHITE_HOLE_BURST_FREQ p)
         (LVE100k.anomalies (LVE100k.run_cycles p k g)).
Proof.
  induction k as [|k (IHc & IHb & IHn & IHf)].
  - repeat split; constructor.
  - destruct (run100k_step p N_MAX_ok k g) as [row Hc].
    rewrite (cc_count _ _ _ _ _ Hc), (cc_anom _ _ _ _ _ Hc),
      (cc_log _ _ _ _ _ Hc), burst_cycles_app, (cc_tag _ _ _ _ _ Hc),
      (cc_cycle _ _ _ _ _ Hc).
    destruct (Rle_dec _ _).
    + rewrite !map_app, length_app, seq_app, map_app, IHb, IHn, IHc.
      cbn [map fst snd length seq Nat.add].
      repeat split; try reflexivity.
      * lia.
      * do 3 f_equal. lia.
      * apply Forall_app. split; [exact IHf | now constructor].
    + rewrite app_nil_r. auto.
Qed.

End Seeded.

(** X4. In the seeded engine the report lists the bursts of the log: the
    counter equals the number of recorded bursts, the recorded cycles are
    the cycles of the rows that carry WHITE_HOLE_BURST, in order, and the
    bursts are numbered 1, 2, ...  The report is the single no-anomalies
    line exactly when the counter is 0, and a header followed by one line
    per burst otherwise. *)
Theorem seeded_report_matches_log `{NumpyRandom} (p : Params)
    (fmt_1e : R -> string) (g : rng) (k : nat) :
  params_ok p ->
  LVE100k.white_hole_count (LVE100k.run_cycles p k g) =
    Z.of_nat (length (burst_cycles (LVE100k.log (LVE100k.run_cycles p k g))))
  /\
  map (fun e => fst (fst e)) (LVE100k.anomalies (LVE100k.run_cycles p k g)) =
    burst_cycles (LVE100k.log (LVE100k.run_cycles p k g)) /\
  map (fun e => snd (fst e)) (LVE100k.anomalies (LVE100k.run_cycles p k g)) =
    map Z.of_nat
        (seq 1 (Z.to_nat
                  (LVE100k.white_hole_count (LVE100k.run_cycles p k g)))) /\
  (LVE100k.white_hole_count (LVE100k.run_cycles p k g) = 0%Z ->
   lve100k_report fmt_1e (LVE100k.run_cycles p k g) =
     ["NO ANOMALIES — CLEAN EVAPORATION"%string]) /\
  (LVE100k.white_hole_count (LVE100k.run_cycles p k g) <> 0%Z ->
   lve100k_report fmt_1e (LVE100k.run_cycles p k g) =
     "WHITE HOLE BURSTS DETECTED:"%string
     :: map (lve100k_entry fmt_1e)
            (LVE100k.anomalies (LVE100k.run_cycles p k g)) /\
   length (lve100k_report fmt_1e (LVE100k.run_cycles p k g)) =
     S (Z.to_nat (LVE100k.white_hole_count (LVE100k.run_cycles p k g)))).
Proof.
  intros (_ & _ & _ & HN).
  destruct (seeded_counter_inv p HN k g) as (Hc & Hb & Hn & _).
  set (s := LVE100k.run_cycles p k g) in *.
  assert (length (burst_cycles (LVE100k.log s)) =
          length (LVE100k.anomalies s)) as Hlen
    by (now rewrite <- Hb, length_map).
  rewrite Hlen, Hc, Nat2Z.id.
  split; [reflexivity|]. split; [exact Hb|]. split; [exact Hn|].
  unfold lve100k_report.
  destruct (LVE100k.anomalies s) as [|e l]; cbn [length]; split.
  - reflexivity.
  - intro Hz. now elim Hz.
  - intro Hz. discriminate Hz.
  - intros _. split; [reflexivity|]. cbn [length]. now rewrite length_map.
Qed.

Lemma coarse_seeded_first `{NumpyRandom} (g : rng) :
  LVE100k.white_hole_count (LVE100k.run_cycles coarse_params 1 g) = 1%Z /\
  LVE100k.M (LVE100k.run_cycles coarse_params 1 g) = 1.0.
Proof.
  assert (0 <= N_MAX coarse_params)%Z as HN by (simpl; lia).
  destruct (run100k_step coarse_params HN 0 g) as [row Hc].
  destruct coarse_post_step as (_ & _ & Hle).
  rewrite (cc_count _ _ _ _ _ Hc), (cc_M _ _ _ _ _ Hc).
  change (LVE100k.M (LVE100k.run_cycles coarse_params 0 g)) with 1.0.
  destruct (Rle_dec _ _) as [_|Hn]; [split; reflexivity | now elim Hn].
Qed.

Lemma seeded_report_matches_log_witness :
  lve100k_report (H := lcg_random) (fun _ => "1.0e+00"%string)
    (LVE100k.run_cycles (H := lcg_random) coarse_params 0 7%Z) =
    ["NO ANOMALIES — CLEAN EVAPORATION"%string] /\
  length (lve100k_report (H := lcg_random) (fun _ => "1.0e+00"%string)
            (LVE100k.run_cycles (H := lcg_random) coarse_params 1 7%Z)) =
    2%nat.
Proof.
  split.
  - apply (seeded_report_matches_log (H := lcg_random) coarse_params
             (fun _ => "1.0e+00"%string) 7%Z 0 coarse_params_ok).
    reflexivity.
  - destruct (seeded_report_matches_log (H := lcg_random) coarse_params
                (fun _ => "1.0e+00"%string) 7%Z 1 coarse_params_ok)
      as (_ & _ & _ & _ & Hrep).
    destruct (coarse_seeded_first (H := lcg_random) 7%Z) as [Hc _].
    destruct Hrep as [_ Hlen]; [rewrite Hc; discriminate|].
    rewrite Hlen, Hc. reflexivity.
Defined.

(** ** The seeded engine: the mass trajectory *)

Section SeededMass.
Context `{NumpyRandom}.
Variable p : Params.
Hypothesis p_ok : params_ok p.
Hypothesis above_core : M_PLANCK_CORE p < M_initial p.

Lemma seeded_mass_bounds (k : nat) (g : rng) :
  M_PLANCK_CORE p < LVE100k.M (LVE100k.run_cycles p k g) <= M_initial p.
Proof.
  destruct p_ok as (H0 & Hc & Hd & HN).
  induction k as [|k IH].
  - cbn. lra.
  - destruct (run100k_step p HN k g) as [row Hs].
    rewrite (cc_M _ _ _ _ _ Hs).
    pose proof (post_step_le p (LVE100k.M (LVE100k.run_cycles p k g)) Hc Hd).
    destruct (Rle_dec _ _); lra.
Qed.

Lemma seeded_count_nonneg (k : nat) (g : rng) :
  (0 <= LVE100k.white_hole_count (LVE100k.run_cycles p k g))%Z.
Proof.
  destruct p_ok as (_ & _ & _ & HN).
  destruct (seeded_counter_inv p HN k g) as (-> & _). lia.
Qed.

Lemma seeded_count_mono (k K : nat) (g : rng) :
  (k <= K)%nat ->
  (LVE100k.white_hole_count (LVE100k.run_cycles p k g) <=
   LVE100k.white_hole_count (LVE100k.run_cycles p K g))%Z.
Proof.
  destruct p_ok as (_ & _ & _ & HN).
  induction 1 as [|K HK IH]; [lia|].
  destruct (run100k_step p HN K g) as [row Hs].
  rewrite (cc_count _ _ _ _ _ Hs). destruct (Rle_dec _ _); lia.
Qed.

(** A decay step from a mass in [(core, M_initial]] subtracts at least
    [dt / (15360 pi M_initial^2)]. *)
Lemma decay_step_at_least (M : R) :
  M_PLANCK_CORE p < M -> M <= M_initial p ->
  post_step p M <= M - dt p / (15360 * PI * M_initial p ^ 2).
Proof.
  destruct p_ok as (H0 & Hc & Hd & _). intros HM HM0.
  unfold post_step. rewrite update_mass_above by exact HM.
  pose proof (evap_den_pos M) as HdM.
  assert (15360 * PI * M ^ 2 <= 15360 * PI * M_initial p ^ 2) as Hle.
  { pose proof PI_RGT_0. simpl. rewrite !Rmult_1_r.
    apply Rmult_le_compat_l; [lra | nra]. }
  assert (/ (15360 * PI * M_initial p ^ 2) <= / (15360 * PI * M ^ 2))
    as Hinv by (apply Rinv_le_contravar; [apply HdM; lra | exact Hle]).
  unfold Rdiv. nra.
Qed.

(** A decay step from a mass at or above [m > core] subtracts at most
    [dt / (15360 pi m^2)]. *)
Lemma decay_step_at_most (m M : R) :
  M_PLANCK_CORE p < m -> m <= M ->
  M - dt p / (15360 * PI * m ^ 2) <= post_step p M.
Proof.
  destruct p_ok as (H0 & Hc & Hd & _). intros Hm HM.
  unfold post_step. rewrite update_mass_above by lra.
  pose proof (evap_den_pos m) as Hdm.
  assert (15360 * PI * m ^ 2 <= 15360 * PI * M ^ 2) as Hle.
  { pose proof PI_RGT_0. simpl. rewrite !Rmult_1_r.
    apply Rmult_le_compat_l; [lra | nra]. }
  assert (/ (15360 * PI * M ^ 2) <= / (15360 * PI * m ^ 2))
    as Hinv by (apply Rinv_le_contravar; [apply Hdm; lra | exact Hle]).
  unfold Rdiv. nra.
Qed.

Lemma seeded_burst_or_decay (j : nat) (g : rng) :
  (1 <= LVE100k.white_hole_count (LVE100k.run_cycles p j g))%Z \/
  LVE100k.M (LVE100k.run_cycles p j g) <=
    M_initial p - INR j * (dt p / (15360 * PI * M_initial p ^ 2)).
Proof.
  destruct p_ok as (H0 & Hc & Hd & HN).
  induction j as [|j [IH|IH]].
  - right. cbn. lra.
  - left. pose proof (seeded_count_mono j (S j) g). lia.
  - destruct (run100k_step p HN j g) as [row Hs].
    pose proof (seeded_mass_bounds j g) as [Hlo Hhi].
    pose proof (decay_step_at_least _ Hlo Hhi) as Hstep.
    pose proof (seeded_count_nonneg j g) as Hnn.
    rewrite (cc_count _ _ _ _ _ Hs), (cc_M _ _ _ _ _ Hs), S_INR.
    destruct (Rle_dec _ _); [left; lia | right; lra].
Qed.

Lemma seeded_no_burst_before (m : R) (K : nat) (g : rng) :
  M_PLANCK_CORE p < m -> m <= M_initial p ->
  INR K * (dt p / (15360 * PI * m ^ 2)) <= M_initial p - m ->
  forall k, (k <= K)%nat ->
    M_initial p - INR k * (dt p / (15360 * PI * m ^ 2))
      <= LVE100k.M (LVE100k.run_cycles p k g) /\
    LVE100k.white_hole_count (LVE100k.run_cycles p k g) = 0%Z.
Proof.
  destruct p_ok as (H0 & Hc & Hd & HN). intros Hm Hm0 HK.
  assert (0 < dt p / (15360 * PI * m ^ 2)) as Hcpos
    by (apply Rdiv_lt_0_compat; [exact Hd | apply evap_den_pos; lra]).
  induction k as [|k IH]; intro Hk.
  - split; [cbn; lra | reflexivity].
  - destruct (IH ltac:(lia)) as [IHm IHc].
    assert (INR (S k) <= INR K) as HkK by (apply le_INR; exact Hk).
    rewrite S_INR in *.
    destruct (run100k_step p HN k g) as [row Hs].
    assert (m <= LVE100k.M (LVE100k.run_cycles p k g)) as Hge by nra.
    pose proof (decay_step_at_most m _ Hm Hge) as Hstep.
    rewrite (cc_count _ _ _ _ _ Hs), (cc_M _ _ _ _ _ Hs).
    destruct (Rle_dec _ _) as [Hle|_]; [exfalso; nra | split; [lra | exact IHc]].
Qed.

Lemma seeded_periodic (a j : nat) (g : rng) :
  LVE100k.M (LVE100k.run_cycles p a g) = M_initial p ->
  LVE100k.M (LVE100k.run_cycles p (a + j) g) =
  LVE100k.M (LVE100k.run_cycles p j g).
Proof.
  destruct p_ok as (_ & _ & _ & HN). intro Ha.
  induction j as [|j IH].
  - rewrite Nat.add_0_r. exact Ha.
  - rewrite Nat.add_succ_r.
    destruct (run100k_step p HN (a + j) g) as [r1 H1].
    destruct (run100k_step p HN j g) as [r2 H2].
    now rewrite (cc_M _ _ _ _ _ H1), (cc_M _ _ _ _ _ H2), IH.
Qed.

End SeededMass.

(** X5. In the seeded engine (core below [M_initial]) every cycle starts
    from a mass in [(M_PLANCK_CORE, M_initial]], and so does every mass
    the log shows: a mass at or below the core is replaced by [M_initial]
    before the row is written. *)
Theorem seeded_mass_above_core `{NumpyRandom} (p : Params) (g : rng)
    (k : nat) :
  params_ok p -> M_PLANCK_CORE p < M_initial p ->
  M_PLANCK_CORE p < LVE100k.M (LVE100k.run_cycles p k g) <= M_initial p /\
  forall r, In r (LVE100k.log (LVE100k.run_cycles p k g)) ->
    M_PLANCK_CORE p < row_M r <= M_initial p.
Proof.
  intros Hp H0. split; [now apply seeded_mass_bounds|].
  intros r Hin. destruct (In_nth_error _ _ Hin) as [i Hi].
  destruct Hp as (Ha & Hb & Hc & HN).
  pose proof (run100k_log_row p HN k g i r Hi) as Hcyc.
  rewrite (cc_row_M _ _ _ _ _ Hcyc).
  now apply seeded_mass_bounds.
Qed.

Lemma seeded_mass_above_core_witness :
  M_PLANCK_CORE lve100k_params <
    LVE100k.M (LVE100k.run_cycles (H := lcg_random) lve100k_params 5 42%Z)
    <= M_initial lve100k_params.
Proof.
  apply (seeded_mass_above_core (H := lcg_random) lve100k_params 42%Z 5
           lve100k_params_ok).
  simpl; lra.
Defined.

(** X6. After a burst the seeded engine repeats itself: if the row of
    cycle [b] carries WHITE_HOLE_BURST, the rows of cycles [b + 1 + j] and
    [j] have the same mass, rates and anomaly column (only the cycle
    index and the draw differ), so bursts recur with period [b + 1]. *)
Theorem seeded_log_periodic `{NumpyRandom} (p : Params) (g : rng)
    (K b j : nat) (rb r r' : CycleRecord) :
  params_ok p ->
  nth_error (LVE100k.log (LVE100k.run_cycles p K g)) b = Some rb ->
  has_tag "WHITE_HOLE_BURST" (row_anomaly rb) = true ->
  nth_error (LVE100k.log (LVE100k.run_cycles p K g)) (S b + j) = Some r ->
  nth_error (LVE100k.log (LVE100k.run_cycles p K g)) j = Some r' ->
  row_M r = row_M r' /\ row_f_dot r = row_f_dot r' /\
  row_dNdt r = row_dNdt r' /\ row_dMdt r = row_dMdt r' /\
  row_anomaly r = row_anomaly r'.
Proof.
  intros Hp Hb Htag Hr Hr'. pose proof Hp as (_ & _ & _ & HN).
  pose proof (run100k_log_row p HN K g b rb Hb) as Hcb.
  assert (LVE100k.M (LVE100k.run_cycles p (S b) g) = M_initial p) as Hreset.
  { rewrite (cc_M _ _ _ _ _ Hcb). rewrite (cc_tag _ _ _ _ _ Hcb) in Htag.
    destruct (Rle_dec _ _); [reflexivity | discriminate]. }
  pose proof (seeded_periodic p Hp (S b) j g Hreset) as Hj.
  pose proof (seeded_periodic p Hp (S b) (S j) g Hreset) as HSj.
  rewrite Nat.add_succ_r in HSj.
  pose proof (run100k_log_row p HN K g _ r Hr) as Hc.
  pose proof (run100k_log_row p HN K g _ r' Hr') as Hc'.
  destruct (run100k_row_columns p HN K g _ r Hr) as (_ & Hf & Hn & Hm & Ha).
  destruct (run100k_row_columns p HN K g _ r' Hr') as (_ & Hf' & Hn' & Hm' & Ha').
  assert (row_f_dot r = row_f_dot r') as Ef by (now rewrite Hf, Hf', Hj).
  assert (row_dNdt r = row_dNdt r') as En by (now rewrite Hn, Hn', Ef).
  rewrite (cc_row_M _ _ _ _ _ Hc), (cc_row_M _ _ _ _ _ Hc'), HSj.
  rewrite Hm, Hm', Ha, Ha', En, Hj. auto.
Qed.

Lemma seeded_log_periodic_witness :
  exists r r',
    nth_error (LVE100k.log
                 (LVE100k.run_cycles (H := lcg_random) coarse_params 4 7%Z))
              2 = Some r /\
    nth_error (LVE100k.log
                 (LVE100k.run_cycles (H := lcg_random) coarse_params 4 7%Z))
              1 = Some r' /\
    row_M r = row_M r' /\ row_anomaly r = row_anomaly r'.
Proof.
  assert (0 <= N_MAX coarse_params)%Z as HN by (simpl; lia).
  set (L := LVE100k.log
              (LVE100k.run_cycles (H := lcg_random) coarse_params 4 7%Z)).
  assert (length L = 4%nat) as Hlen
    by apply (run100k_log_length (H := lcg_random) coarse_params HN 4 7%Z).
  destruct (nth_error L 0) as [rb|] eqn:E0;
    [|apply nth_error_None in E0; lia].
  destruct (nth_error L 1) as [r'|] eqn:E1;
    [|apply nth_error_None in E1; lia].
  destruct (nth_error L 2) as [r|] eqn:E2;
    [|apply nth_error_None in E2; lia].
  assert (has_tag "WHITE_HOLE_BURST" (row_anomaly rb) = true) as Htag.
  { pose proof (run100k_log_row (H := lcg_random) coarse_params HN 4 7%Z
                  0 rb E0) as Hc.
    rewrite (cc_tag _ _ _ _ _ Hc).
    destruct coarse_post_step as (_ & _ & Hle).
    destruct (Rle_dec _ _) as [_|Hn]; [reflexivity | now elim Hn]. }
  destruct (seeded_log_periodic (H := lcg_random) coarse_params 7%Z 4 0 1
              rb r r' coarse_params_ok E0 Htag E2 E1)
    as (HM & _ & _ & _ & HA).
  exists r, r'. auto.
Defined.

(** X7. The seeded engine bursts in bounded time: when
    [N * dt / (15360 pi M_initial^2) >= M_initial - M_PLANCK_CORE], the
    burst counter is at least 1 after [N] cycles and after any longer
    run.  (With the shipped constants the 100000-cycle run qualifies.) *)
Theorem seeded_bursts_within `{NumpyRandom} (p : Params) (g : rng)
    (N K : nat) :
  params_ok p -> M_PLANCK_CORE p < M_initial p ->
  M_initial p - M_PLANCK_CORE p <=
    INR N * (dt p / (15360 * PI * M_initial p ^ 2)) ->
  (N <= K)%nat ->
  (1 <= LVE100k.white_hole_count (LVE100k.run_cycles p K g))%Z.
Proof.
  intros Hp H0 HN HK.
  pose proof (seeded_count_mono p Hp N K g HK) as Hmono.
  destruct (seeded_burst_or_decay p Hp H0 N g) as [Hc|Hm]; [lia|].
  pose proof (seeded_mass_bounds p Hp H0 N g) as [Hlo _].
  set (x := INR N * _) in *. lra.
Qed.

Lemma seeded_bursts_within_witness :
  (1 <= LVE100k.white_hole_count
          (LVE100k.main (H := lcg_random) lve100k_params 42%Z))%Z.
Proof.
  unfold LVE100k.main.
  apply (seeded_bursts_within (H := lcg_random) lve100k_params 42%Z
           (Z.to_nat 100000) (Z.to_nat (CYCLES lve100k_params))
           lve100k_params_ok).
  - simpl; lra.
  - rewrite INR_IZR_INZ, Z2Nat.id by lia.
    cbn [M_initial M_PLANCK_CORE dt lve100k_params].
    destruct PI_bounds as [Hlo Hhi].
    replace (15360 * PI * 1.0 ^ 2) with (15360 * PI) by (simpl; lra).
    assert (/ (15360 * 3.1421) < / (15360 * PI))
      by (apply Rinv_lt_contravar; nra).
    unfold Rdiv. lra.
  - apply Nat.le_refl.
Defined.

(** ** latent_vacuum_engine.py: rows, latch and report *)

Section Latch.
Context `{NumpyRandom}.
Variable p : Params.
Hypothesis N_MAX_ok : (0 <= N_MAX p)%Z.

(** The columns of the row a pass of the body appends that [lve_cycle]
    does not describe. *)
Lemma loop_body_row (k : nat) (s : LVE.State) :
  exists s' row,
    LVE.loop_body p k s = inr s' /\
    LVE.log s' = LVE.log s ++ [row] /\
    row_V_hom row = T_HOM p /\
    row_f_dot row = apply_dce_drive p (T_HOM p) (LVE.M s) /\
    row_dNdt row = compute_dNdt (row_f_dot row) /\
    row_dMdt row = (post_step p (LVE.M s) - LVE.M s) / dt p /\
    row_anomaly row =
      ((if Rgt_dec (row_dNdt row) 1e-6 then "DCE_FLUX_ANOMALY " else "") ++
       (if lve_burst p s
        then "PLANCK_CORE_SATURATION WHITE_HOLE_BURST " else ""))%string.
Proof.
  unfold LVE.loop_body.
  pose proof (randint_range 0 (N_MAX p + 1) (LVE.gen s)) as Hr.
  destruct (np_random_randint 0 (N_MAX p + 1) (LVE.gen s)) as [n g'].
  cbn [fst] in Hr.
  destruct (generate_ghz_full_ok n) as (psi & -> & Ha); [lia|].
  cbn [bind]. cbv zeta. rewrite Ha.
  destruct (Rgt_dec (Rabs _) _) as [Habs|_]; [now apply no_drift in Habs|].
  do 2 eexists. split; [reflexivity|].
  fold (post_step p (LVE.M s)). unfold measure_hom_visibility.
  cbn [LVE.log]. split; [reflexivity|].
  cbn [row_V_hom row_f_dot row_dNdt row_dMdt row_anomaly].
  repeat (split; [reflexivity|]).
  unfold lve_burst.
  destruct (Rgt_dec _ _), (Rle_dec _ _), (LVE.white_hole_triggered s);
    reflexivity.
Qed.

(** The row at position [i] of a log, with all its columns. *)
Lemma run_row_columns (K : nat) (g : rng) (sK : LVE.State) (i : nat)
    (r : CycleRecord) :
  LVE.run_cycles p K g = inr sK ->
  nth_error (LVE.log sK) i = Some r ->
  exists s s',
    LVE.run_cycles p i g = inr s /\
    LVE.run_cycles p (S i) g = inr s' /\
    lve_cycle p i s s' r /\
    row_V_hom r = T_HOM p /\
    row_f_dot r = apply_dce_drive p (T_HOM p) (LVE.M s) /\
    row_dNdt r = compute_dNdt (row_f_dot r) /\
    row_dMdt r = (post_step p (LVE.M s) - LVE.M s) / dt p /\
    row_anomaly r =
      ((if Rgt_dec (row_dNdt r) 1e-6 then "DCE_FLUX_ANOMALY " else "") ++
       (if lve_burst p s
        then "PLANCK_CORE_SATURATION WHITE_HOLE_BURST " else ""))%string.
Proof.
  intros HK Hr.
  destruct (run_log_row p N_MAX_ok K g sK i r HK Hr)
    as (s & s' & Hs & Hs' & Hc).
  destruct (loop_body_row i s) as (s2 & row & Hb & Hlog & Hcols).
  rewrite run_cycles_S, Hs in Hs'. cbn [bind] in Hs'.
  rewrite Hb in Hs'. injection Hs' as ->.
  rewrite (lc_log _ _ _ _ _ Hc) in Hlog.
  apply app_inj_tail in Hlog. destruct Hlog as [_ ->].
  exists s, s'. rewrite run_cycles_S, Hs. cbn [bind]. auto 10.
Qed.

(** The latch, the burst list and the tagged rows move together. *)
Lemma latch_inv (k : nat) (g : rng) (s : LVE.State) :
  LVE.run_cycles p k g = inr s ->
  map fst (LVE.anomalies s) = burst_cycles (LVE.log s) /\
  Forall (fun e => snd e = WHITE_HOLE_BURST_FREQ p) (LVE.anomalies s) /\
  length (LVE.anomalies s) = (if LVE.white_hole_triggered s then 1 else 0)%nat.
Proof.
  revert s. induction k as [|k IH]; intros s Hs.
  - injection Hs as <-. repeat split. constructor.
  - destruct (run_cycles_step p N_MAX_ok k g s Hs) as (s0 & row & Hs0 & Hc).
    destruct (IH s0 Hs0) as (IHb & IHf & IHl).
    rewrite (lc_anom _ _ _ _ _ Hc), (lc_log _ _ _ _ _ Hc), burst_cycles_app,
      (lc_tag _ _ _ _ _ Hc), (lc_cycle _ _ _ _ _ Hc), (lc_trig _ _ _ _ _ Hc).
    unfold lve_burst in *.
    destruct (Rle_dec _ _), (LVE.white_hole_triggered s0); cbn [negb orb];
      rewrite ?app_nil_r; try (repeat split; assumption).
    destruct (LVE.anomalies s0) as [|e l]; [|discriminate IHl].
    split; [now rewrite <- IHb | split; [|reflexivity]].
    repeat constructor.
Qed.

End Latch.

(** X8. latent_vacuum_engine.py records at most one burst in a run: the
    burst list has one entry when the latch is set and none otherwise, its
    cycle is the cycle of the only row that carries WHITE_HOLE_BURST, and
    the report is the no-anomalies line or a header with that one
    entry. *)
Theorem latch_report_single_burst `{NumpyRandom} (p : Params)
    (fmt_1e : R -> string) (g : rng) (k : nat) (s : LVE.State) :
  params_ok p ->
  LVE.run_cycles p k g = inr s ->
  map fst (LVE.anomalies s) = burst_cycles (LVE.log s) /\
  (length (burst_cycles (LVE.log s)) <= 1)%nat /\
  (LVE.white_hole_triggered s = false ->
   LVE.anomalies s = [] /\
   lve_report fmt_1e s = ["NO ANOMALIES — CLEAN EVAPORATION"%string]) /\
  (LVE.white_hole_triggered s = true ->
   exists c,
     LVE.anomalies s = [(c, WHITE_HOLE_BURST_FREQ p)] /\
     lve_report fmt_1e s =
       ["ANOMALIES DETECTED:"%string;
        lve_entry fmt_1e (c, WHITE_HOLE_BURST_FREQ p)]).
Proof.
  intros (_ & _ & _ & HN) Hs.
  destruct (latch_inv p HN k g s Hs) as (Hb & Hf & Hl).
  split; [exact Hb|]. split.
  - rewrite <- Hb, length_map, Hl. destruct (LVE.white_hole_triggered s); lia.
  - unfold lve_report. split; intro Ht; rewrite Ht in Hl.
    + destruct (LVE.anomalies s) as [|e l]; [auto | discriminate Hl].
    + destruct (LVE.anomalies s) as [|[c f] [|e' l]]; try discriminate Hl.
      apply Forall_inv in Hf. cbn [snd] in Hf. subst f.
      exists c. split; reflexivity.
Qed.

Lemma latch_report_single_burst_witness :
  exists s c,
    LVE.run_cycles (H := lcg_random) coarse_params 2 42%Z = inr s /\
    lve_report (H := lcg_random) (fun _ => "1.0e+00"%string) s =
      ["ANOMALIES DETECTED:"%string;
       lve_entry (fun _ => "1.0e+00"%string)
                 (c, WHITE_HOLE_BURST_FREQ coarse_params)] /\
    lve_report (H := lcg_random) (fun _ => "1.0e+00"%string)
      (LVE.init (H := lcg_random) coarse_params 42%Z) =
      ["NO ANOMALIES — CLEAN EVAPORATION"%string].
Proof.
  destruct (coarse_run (H := lcg_random) 42%Z)
    as (s1 & s2 & r0 & r1 & Hs1 & Hs2 & Hc0 & Hc1 & _ & _ & L1 & _).
  assert (LVE.white_hole_triggered s2 = true) as L2.
  { rewrite (lc_trig _ _ _ _ _ Hc1), L1. reflexivity. }
  destruct (latch_report_single_burst (H := lcg_random) coarse_params
              (fun _ => "1.0e+00"%string) 42%Z 2 s2 coarse_params_ok Hs2)
    as (_ & _ & _ & Hrep).
  destruct (Hrep L2) as (c & _ & Hr).
  exists s2, c. split; [exact Hs2|]. split; [exact Hr|].
  apply (latch_report_single_burst (H := lcg_random) coarse_params
           (fun _ => "1.0e+00"%string) 42%Z 0 _ coarse_params_ok eq_refl).
  reflexivity.
Defined.

(** Until the latch is set the two engines carry the same mass. *)
Lemma engines_agree `{NumpyRandom} (p : Params) (g g' : rng) (k : nat)
    (s : LVE.State) :
  (0 <= N_MAX p)%Z ->
  LVE.run_cycles p k g = inr s ->
  (LVE.white_hole_triggered s = false /\
   LVE.M s = LVE100k.M (LVE100k.run_cycles p k g') /\
   LVE100k.white_hole_count (LVE100k.run_cycles p k g') = 0%Z) \/
  (LVE.white_hole_triggered s = true /\
   (1 <= LVE100k.white_hole_count (LVE100k.run_cycles p k g'))%Z).
Proof.
  intro HN. revert s. induction k as [|k IH]; intros s Hs.
  - injection Hs as <-. left. repeat split.
  - destruct (run_cycles_step p HN k g s Hs) as (s0 & row & Hs0 & Hc).
    destruct (run100k_step p HN k g') as [row' Hc'].
    rewrite (lc_trig _ _ _ _ _ Hc), (lc_M _ _ _ _ _ Hc),
      (cc_M _ _ _ _ _ Hc'), (cc_count _ _ _ _ _ Hc').
    unfold lve_burst.
    destruct (IH s0 Hs0) as [(Ht & HM & Hcnt)|(Ht & Hcnt)];
      rewrite Ht; cbn [negb orb].
    + rewrite <- HM, Hcnt.
      destruct (Rle_dec _ _); [right | left]; repeat split; lia.
    + right. split; [reflexivity|]. destruct (Rle_dec _ _); lia.
Qed.

(** X9. The two engines differ only after the first burst: as long as
    latent_vacuum_engine.py has not set its latch, its mass is the mass of
    the seeded engine after the same number of cycles and the seeded
    counter is 0; once the latch is set the seeded counter is at least
    1. *)
Theorem engines_agree_until_burst `{NumpyRandom} (p : Params)
    (g g' : rng) (k : nat) (s : LVE.State) :
  params_ok p ->
  LVE.run_cycles p k g = inr s ->
  (LVE.white_hole_triggered s = false <->
   LVE100k.white_hole_count (LVE100k.run_cycles p k g') = 0%Z) /\
  (LVE.white_hole_triggered s = false ->
   LVE.M s = LVE100k.M (LVE100k.run_cycles p k g')).
Proof.
  intros (_ & _ & _ & HN) Hs.
  destruct (engines_agree p g g' k s HN Hs) as [(Ht & HM & Hc)|(Ht & Hc)].
  - split; [split; auto | auto].
  - split; [split|]; intro Hx; try congruence; lia.
Qed.

Lemma engines_agree_until_burst_witness :
  exists s,
    LVE.run_cycles (H := lcg_random) lve_params 1000 42%Z = inr s /\
    LVE100k.white_hole_count
      (LVE100k.run_cycles (H := lcg_random) lve_params 1000 7%Z) = 0%Z /\
    LVE.M s =
      LVE100k.M (LVE100k.run_cycles (H := lcg_random) lve_params 1000 7%Z).
Proof.
  assert (0 <= N_MAX lve_params)%Z as HN by (simpl; lia).
  destruct (run_cycles_total (H := lcg_random) lve_params HN 1000 42%Z)
    as [s Hs].
  destruct (shipped_lve_no_burst (H := lcg_random) 42%Z 1000 s
              (Nat.le_refl _) Hs) as (_ & Ht & _).
  destruct (engines_agree_until_burst (H := lcg_random) lve_params
              42%Z 7%Z 1000 s lve_params_ok Hs) as [Hiff HM].
  exists s. split; [exact Hs|]. split; [apply Hiff; exact Ht | exact (HM Ht)].
Defined.

(** ** Both engines: horizon without bursts and shape of the log *)

(** X10. No burst before the mass can have reached the core: if [m] lies
    between the core and [M_initial] and
    [K * dt / (15360 pi m^2) <= M_initial - m], then after [K] cycles the
    mass of either engine is still at least
    [M_initial - K * dt / (15360 pi m^2)], the seeded counter is 0, the
    latch is clear, no row carries WHITE_HOLE_BURST and the report of
    latent_vacuum_engine.py is the no-anomalies line.  (The shipped
    1000-cycle run qualifies with [m = 0.9].) *)
Theorem no_burst_before `{NumpyRandom} (p : Params)
    (fmt_1e : R -> string) (g : rng) (m : R) (K : nat) :
  params_ok p ->
  M_PLANCK_CORE p < m -> m <= M_initial p ->
  INR K * (dt p / (15360 * PI * m ^ 2)) <= M_initial p - m ->
  (M_initial p - INR K * (dt p / (15360 * PI * m ^ 2))
     <= LVE100k.M (LVE100k.run_cycles p K g) /\
   LVE100k.white_hole_count (LVE100k.run_cycles p K g) = 0%Z /\
   burst_cycles (LVE100k.log (LVE100k.run_cycles p K g)) = []) /\
  (forall s, LVE.run_cycles p K g = inr s ->
     M_initial p - INR K * (dt p / (15360 * PI * m ^ 2)) <= LVE.M s /\
     LVE.white_hole_triggered s = false /\
     burst_cycles (LVE.log s) = [] /\
     lve_report fmt_1e s = ["NO ANOMALIES — CLEAN EVAPORATION"%string]).
Proof.
  intros Hp Hm Hm0 HK. pose proof Hp as (_ & _ & _ & HN).
  destruct (seeded_no_burst_before p Hp m K g Hm Hm0 HK K (Nat.le_refl K))
    as [HM Hc].
  destruct (seeded_counter_inv p HN K g) as (Hcnt & Hb & _).
  assert (LVE100k.anomalies (LVE100k.run_cycles p K g) = []) as Hnil.
  { rewrite Hc in Hcnt.
    destruct (LVE100k.anomalies _); [reflexivity | cbn in Hcnt; lia]. }
  split.
  - split; [exact HM|]. split; [exact Hc|]. now rewrite <- Hb, Hnil.
  - intros s Hs.
    destruct (engines_agree p g g K s HN Hs) as [(Ht & HMs & _)|(_ & Hc1)];
      [|lia].
    destruct (latch_inv p HN K g s Hs) as (Hbs & _ & Hl).
    rewrite Ht in Hl.
    assert (LVE.anomalies s = []) as Hnils
      by (destruct (LVE.anomalies s); [reflexivity | discriminate Hl]).
    rewrite HMs. split; [exact HM|]. split; [exact Ht|].
    split; [now rewrite <- Hbs, Hnils|].
    unfold lve_report. now rewrite Hnils.
Qed.

Lemma no_burst_before_witness :
  exists s,
    LVE.main (H := lcg_random) lve_params 42%Z = inr s /\
    LVE.white_hole_triggered s = false /\
    lve_report (H := lcg_random) (fun _ => "1.0e+00"%string) s =
      ["NO ANOMALIES — CLEAN EVAPORATION"%string].
Proof.
  assert (0 <= N_MAX lve_params)%Z as HN by (simpl; lia).
  unfold LVE.main.
  destruct (run_cycles_total (H := lcg_random) lve_params HN
              (Z.to_nat (CYCLES lve_params)) 42%Z) as [s Hs].
  assert (INR (Z.to_nat (CYCLES lve_params)) *
          (dt lve_params / (15360 * PI * 0.9 ^ 2))
          <= M_initial lve_params - 0.9) as HK.
  { rewrite INR_IZR_INZ, Z2Nat.id by (simpl; lia).
    cbn [M_initial CYCLES dt lve_params].
    destruct PI_bounds as [Hlo Hhi].
    replace (15360 * PI * 0.9 ^ 2) with (12441.6 * PI) by (simpl; lra).
    assert (/ (12441.6 * PI) < / (12441.6 * 3.1415))
      by (apply Rinv_lt_contravar; nra).
    unfold Rdiv. lra. }
  destruct (no_burst_before (H := lcg_random) lve_params
              (fun _ => "1.0e+00"%string) 42%Z 0.9
              (Z.to_nat (CYCLES lve_params)) lve_params_ok)
    as [_ Hlve]; [simpl; lra | simpl; lra | exact HK |].
  destruct (Hlve s Hs) as (_ & Ht & _ & Hr).
  exists s. auto.
Defined.

(** X11. The log is written once per cycle and in order: after [K] cycles
    it has [K] rows, and the row at position [i] has cycle index [i], a
    mode count in [[0, N_MAX]], visibility [T_HOM], equal simulated and
    expected areas [max(n, 1) * 2 pi], a flux [f_dot^2 / (8 pi) >= 0] and
    a non-positive dMdt.  This holds for both engines. *)
Theorem log_rows_well_formed `{NumpyRandom} (p : Params) (g : rng)
    (K i : nat) (r : CycleRecord) :
  params_ok p ->
  let ok (r : CycleRecord) :=
    row_cycle r = i /\ (0 <= row_n r <= N_MAX p)%Z /\
    row_V_hom r = T_HOM p /\
    row_area_sim r = IZR (Z.max (row_n r) 1) * 2 * PI /\
    row_area_expected r = IZR (Z.max (row_n r) 1) * 2 * PI /\
    row_dNdt r = row_f_dot r ^ 2 / (8 * PI) /\
    0 <= row_dNdt r /\ row_dMdt r <= 0 in
  (length (LVE100k.log (LVE100k.run_cycles p K g)) = K /\
   (nth_error (LVE100k.log (LVE100k.run_cycles p K g)) i = Some r -> ok r))
  /\
  (forall sK, LVE.run_cycles p K g = inr sK ->
     length (LVE.log sK) = K /\
     (nth_error (LVE.log sK) i = Some r -> ok r)).
Proof.
  intros (H0 & Hc & Hd & HN) ok.
  assert (forall f, compute_dNdt f = f ^ 2 / (8 * PI)) as Hflux.
  { intro f. unfold compute_dNdt, DCE_FACTOR, Rdiv.
    replace 1.0 with 1 by lra. ring. }
  assert (forall f, 0 <= compute_dNdt f) as Hnn.
  { intro f. unfold compute_dNdt. pose proof DCE_FACTOR_pos.
    assert (0 <= f ^ 2) by (simpl; nra). nra. }
  assert (forall M, (post_step p M - M) / dt p <= 0) as Hrate.
  { intro M. pose proof (post_step_le p M Hc Hd).
    assert (0 < / dt p) by (apply Rinv_0_lt_compat; exact Hd).
    unfold Rdiv. nra. }
  split.
  - split; [apply (run100k_log_length p HN)|]. intro Hr.
    pose proof (run100k_log_row p HN K g i r Hr) as Hcyc.
    destruct (run100k_row_columns p HN K g i r Hr) as (HV & Hf & Hn & Hm & _).
    unfold ok. rewrite (cc_area _ _ _ _ _ Hcyc), (cc_area_exp _ _ _ _ _ Hcyc).
    rewrite Hn, Hm, Hflux.
    repeat split; try reflexivity;
      [exact (cc_cycle _ _ _ _ _ Hcyc) | apply (cc_n_range _ _ _ _ _ Hcyc)
      | apply (cc_n_range _ _ _ _ _ Hcyc) | exact HV
      | rewrite <- Hflux; apply Hnn | apply Hrate].
  - intros sK HK. split; [apply (run_log_length p HN K g sK HK)|]. intro Hr.
    destruct (run_row_columns p HN K g sK i r HK Hr)
      as (s & s' & _ & _ & Hcyc & HV & Hf & Hn & Hm & _).
    unfold ok. rewrite (lc_area _ _ _ _ _ Hcyc), (lc_area_exp _ _ _ _ _ Hcyc).
    rewrite Hn, Hm, Hflux.
    repeat split; try reflexivity;
      [exact (lc_cycle _ _ _ _ _ Hcyc) | apply (lc_n_range _ _ _ _ _ Hcyc)
      | apply (lc_n_range _ _ _ _ _ Hcyc) | exact HV
      | rewrite <- Hflux; apply Hnn | apply Hrate].
Qed.

Lemma log_rows_well_formed_witness :
  exists r,
    nth_error (LVE100k.log
                 (LVE100k.run_cycles (H := lcg_random) coarse_params 4 7%Z))
              2 = Some r /\
    row_cycle r = 2%nat /\ (0 <= row_n r <= 6)%Z /\ row_dMdt r <= 0.
Proof.
  assert (0 <= N_MAX coarse_params)%Z as HN by (simpl; lia).
  destruct (nth_error (LVE100k.log
              (LVE100k.run_cycles (H := lcg_random) coarse_params 4 7%Z)) 2)
    as [r|] eqn:E.
  - destruct (log_rows_well_formed (H := lcg_random) coarse_params 7%Z 4 2 r
                coarse_params_ok) as [[_ Hrow] _].
    destruct (Hrow E) as (Hc & Hn & _ & _ & _ & _ & _ & Hm).
    exists r. auto.
  - apply nth_error_None in E.
    rewrite (run100k_log_length (H := lcg_random) coarse_params HN 4 7%Z) in E.
    lia.
Defined.

(** X12. The log and the burst list are append-only: what a run has
    written after [k] cycles is a prefix of what it has written after any
    [K >= k] cycles, so stopping a run early (KeyboardInterrupt) loses
    rows but changes none.  This holds for both engines. *)
Theorem log_append_only `{NumpyRandom} (p : Params) (g : rng) (k K : nat) :
  params_ok p -> (k <= K)%nat ->
  (exists rows bursts,
     LVE100k.log (LVE100k.run_cycles p K g) =
       LVE100k.log (LVE100k.run_cycles p k g) ++ rows /\
     length rows = (K - k)%nat /\
     LVE100k.anomalies (LVE100k.run_cycles p K g) =
       LVE100k.anomalies (LVE100k.run_cycles p k g) ++ bursts) /\
  (forall sk sK,
     LVE.run_cycles p k g = inr sk -> LVE.run_cycles p K g = inr sK ->
     exists rows bursts,
       LVE.log sK = LVE.log sk ++ rows /\
       length rows = (K - k)%nat /\
       LVE.anomalies sK = LVE.anomalies sk ++ bursts).
Proof.
  intros (_ & _ & _ & HN) HkK. split.
  - induction HkK as [|K HkK (rows & bursts & Hl & Hlen & Ha)].
    + exists [], []. rewrite !app_nil_r, Nat.sub_diag. auto.
    + destruct (run100k_step p HN K g) as [row Hc].
      rewrite (cc_log _ _ _ _ _ Hc), (cc_anom _ _ _ _ _ Hc), Hl, Ha.
      exists (rows ++ [row]).
      destruct (Rle_dec _ _);
        [exists (bursts ++ [(K, (LVE100k.white_hole_count
                                  (LVE100k.run_cycles p K g) + 1)%Z,
                             WHITE_HOLE_BURST_FREQ p)])
        | exists bursts];
        rewrite <- ?app_assoc, length_app, Hlen;
        (split; [reflexivity|]); (split; [cbn [length]; lia | reflexivity]).
  - intros sk sK Hsk. revert sK.
    induction HkK as [|K HkK IH]; intros sK HsK.
    + rewrite Hsk in HsK. injection HsK as <-.
      exists [], []. rewrite !app_nil_r, Nat.sub_diag. auto.
    + destruct (run_cycles_step p HN K g sK HsK) as (s0 & row & Hs0 & Hc).
      destruct (IH s0 Hs0) as (rows & bursts & Hl & Hlen & Ha).
      rewrite (lc_log _ _ _ _ _ Hc), (lc_anom _ _ _ _ _ Hc), Hl, Ha.
      exists (rows ++ [row]).
      destruct (lve_burst p s0);
        [exists (bursts ++ [(K, WHITE_HOLE_BURST_FREQ p)]) | exists bursts];
        rewrite <- ?app_assoc, length_app, Hlen;
        (split; [reflexivity|]); (split; [cbn [length]; lia | reflexivity]).
Qed.

Lemma log_append_only_witness :
  exists rows,
    LVE100k.log (LVE100k.run_cycles (H := lcg_random) coarse_params 4 7%Z) =
    LVE100k.log (LVE100k.run_cycles (H := lcg_random) coarse_params 1 7%Z)
      ++ rows /\
    length rows = 3%nat.
Proof.
  destruct (log_append_only (H := lcg_random) coarse_params 7%Z 1 4
              coarse_params_ok) as [(rows & bursts & Hl & Hlen & _) _].
  - lia.
  - exists rows. split; [exact Hl | exact Hlen].
Defined.

(** X13. The logged mass only goes up in a burst cycle: from one row to
    the next the mass column does not increase unless the later row
    carries WHITE_HOLE_BURST, in which case it is [M_initial].  This holds
    for both engines. *)
Theorem mass_rises_only_at_burst `{NumpyRandom} (p : Params) (g : rng)
    (K i : nat) (r r' : CycleRecord) :
  params_ok p ->
  (nth_error (LVE100k.log (LVE100k.run_cycles p K g)) i = Some r ->
   nth_error (LVE100k.log (LVE100k.run_cycles p K g)) (S i) = Some r' ->
   if has_tag "WHITE_HOLE_BURST" (row_anomaly r')
   then row_M r' = M_initial p else row_M r' <= row_M r) /\
  (forall sK, LVE.run_cycles p K g = inr sK ->
     nth_error (LVE.log sK) i = Some r ->
     nth_error (LVE.log sK) (S i) = Some r' ->
     if has_tag "WHITE_HOLE_BURST" (row_anomaly r')
     then row_M r' = M_initial p else row_M r' <= row_M r).
Proof.
  intros (H0 & Hc & Hd & HN). split.
  - intros Hr Hr'.
    pose proof (run100k_log_row p HN K g i r Hr) as C.
    pose proof (run100k_log_row p HN K g (S i) r' Hr') as C'.
    rewrite (cc_tag _ _ _ _ _ C'), (cc_row_M _ _ _ _ _ C'),
      (cc_M _ _ _ _ _ C'), (cc_row_M _ _ _ _ _ C).
    destruct (Rle_dec _ _); [reflexivity | now apply post_step_le].
  - intros sK HK Hr Hr'.
    destruct (run_log_row p HN K g sK i r HK Hr) as (s & s1 & _ & Hs1 & C).
    destruct (run_log_row p HN K g sK (S i) r' HK Hr')
      as (s1' & s2 & Hs1' & _ & C').
    rewrite Hs1 in Hs1'. injection Hs1' as <-.
    rewrite (lc_tag _ _ _ _ _ C'), (lc_row_M _ _ _ _ _ C'),
      (lc_M _ _ _ _ _ C'), (lc_row_M _ _ _ _ _ C).
    destruct (lve_burst p s1); [reflexivity | now apply post_step_le].
Qed.

Lemma mass_rises_only_at_burst_witness :
  exists r r',
    nth_error (LVE100k.log
                 (LVE100k.run_cycles (H := lcg_random) coarse_params 4 7%Z))
              0 = Some r /\
    nth_error (LVE100k.log
                 (LVE100k.run_cycles (H := lcg_random) coarse_params 4 7%Z))
              1 = Some r' /\
    (if has_tag "WHITE_HOLE_BURST" (row_anomaly r')
     then row_M r' = M_initial coarse_params else row_M r' <= row_M r).
Proof.
  assert (0 <= N_MAX coarse_params)%Z as HN by (simpl; lia).
  set (L := LVE100k.log
              (LVE100k.run_cycles (H := lcg_random) coarse_params 4 7%Z)).
  assert (length L = 4%nat) as Hlen
    by apply (run100k_log_length (H := lcg_random) coarse_params HN 4 7%Z).
  destruct (nth_error L 0) as [r|] eqn:E0;
    [|apply nth_error_None in E0; lia].
  destruct (nth_error L 1) as [r'|] eqn:E1;
    [|apply nth_error_None in E1; lia].
  exists r, r'. split; [reflexivity|]. split; [reflexivity|].
  exact (proj1 (mass_rises_only_at_burst (H := lcg_random) coarse_params
                  7%Z 4 0 r r' coarse_params_ok) E0 E1).
Defined.

(** ** The two area functions and the table of Wieger_3.py *)

(** X15. [compute_total_wigner_area] never returns less than [2 pi]: it
    is [2 pi] times a mode count of at least 1, whatever object it is
    given.  On every ket it agrees with the total that Wieger_3.py forms
    from [area_per_mode] (area per mode times number of modes). *)
Theorem area_functions_agree (psi : Qutip.Qobj) :
  2 * PI <= LVE.compute_total_wigner_area psi /\
  (exists m, (1 <= m)%Z /\
             LVE.compute_total_wigner_area psi = IZR m * 2 * PI) /\
  (Qutip.type psi = Qutip.ket ->
   fst (Wieger3.area_per_mode psi) * IZR (snd (Wieger3.area_per_mode psi)) =
   LVE.compute_total_wigner_area psi).
Proof.
  pose proof PI_RGT_0 as Hpi.
  unfold LVE.compute_total_wigner_area, Wieger3.area_per_mode.
  set (len := Z.of_nat (length (fst (Qutip.dims psi)))).
  set (m := Z.max match Qutip.type psi with
                  | Qutip.ket => len | _ => 0%Z end 1).
  assert (1 <= m)%Z as Hm by (unfold m; lia).
  assert (1 <= IZR m) as Hm' by (apply IZR_le in Hm; exact Hm).
  split; [nra|]. split; [exists m; split; [exact Hm | reflexivity]|].
  intro Hk. unfold m. rewrite Hk. cbn [fst snd].
  destruct (Z.ltb_spec 1 len) as [Hlt|Hge].
  - rewrite Z.max_l by lia. ring.
  - rewrite Z.max_r by lia. ring.
Qed.

Lemma area_functions_agree_witness :
  fst (Wieger3.area_per_mode (Qutip.basis 2 0)) *
  IZR (snd (Wieger3.area_per_mode (Qutip.basis 2 0))) =
  LVE.compute_total_wigner_area (Qutip.basis 2 0).
Proof.
  apply (area_functions_agree (Qutip.basis 2 0)). reflexivity.
Defined.

(** X16. Every line of the table of Wieger_3.py reports a match: for
    each [n >= 0] the loop body finds area [2 pi] per mode, a total equal
    to the expected [max(n, 1) * 2 pi], and [match = True]; for a
    negative [n] the state constructor raises instead. *)
Theorem wieger_row_matches (n : Z) :
  ((0 <= n)%Z ->
   exists total,
     wieger_row n = inr (2 * PI, total, IZR (Z.max n 1) * 2 * PI, true) /\
     total = IZR (Z.max n 1) * 2 * PI) /\
  ((n < 0)%Z -> wieger_row n = inl IndexError).
Proof.
  unfold wieger_row. destruct (generators_agree n) as [_ ->]. split.
  - intro Hn.
    assert (exists psi,
              LVE.generate_ghz_full n = inr psi /\
              Z.of_nat (length (fst (Qutip.dims psi))) = Z.max n 1)
      as (psi & Hg & Hlen).
    { destruct (Z.eq_dec n 0) as [->|Hz].
      - exists (Qutip.fock 1 0). split; reflexivity.
      - destruct (GhzFacts.generate_ghz_full_pos n) as (psi & Hg & Hd); [lia|].
        exists psi. split; [exact Hg|].
        rewrite Hd. cbn [fst]. rewrite repeat_length. lia. }
    rewrite Hg. cbn [bind]. unfold Wieger3.area_per_mode. rewrite Hlen.
    replace (if (1 <? Z.max n 1)%Z then Z.max n 1 else 1%Z)
      with (Z.max n 1) by (destruct (Z.ltb_spec 1 (Z.max n 1)); lia).
    set (w := IZR (Z.max n 1)).
    assert (2 * PI * w - w * 2 * PI = 0) as Hz by ring.
    rewrite Hz, Rabs_R0.
    destruct (Rlt_dec 0 1e-3) as [_|Hn3]; [|exfalso; apply Hn3; lra].
    eexists. split; [reflexivity | ring].
  - intro Hn. now rewrite GhzFacts.generate_ghz_full_neg.
Qed.

Lemma wieger_row_matches_witness :
  (exists total,
     wieger_row 6 = inr (2 * PI, total, IZR (Z.max 6 1) * 2 * PI, true)) /\
  wieger_row (-1) = inl IndexError.
Proof.
  split.
  - destruct (proj1 (wieger_row_matches 6)) as (total & Hrow & _); [lia|].
    now exists total.
  - apply (proj2 (wieger_row_matches (-1))). lia.
Defined.

(** ** The flux tag and the mass band of the latch engine *)

(** X17. The anomaly column is decided by two tests.  A row carries the
    flux tag (DCE_ANOMALY in the seeded engine, DCE_FLUX_ANOMALY in
    latent_vacuum_engine.py) exactly when its dNdt column exceeds 1e-6,
    and the column is empty exactly when the flux is within the threshold
    and the row carries no WHITE_HOLE_BURST. *)
Theorem flux_tag_iff `{NumpyRandom} (p : Params) (g : rng) (K i : nat)
    (r : CycleRecord) :
  params_ok p ->
  (nth_error (LVE100k.log (LVE100k.run_cycles p K g)) i = Some r ->
   (has_tag "DCE_ANOMALY" (row_anomaly r) = true <-> row_dNdt r > 1e-6) /\
   (row_anomaly r = ""%string <->
    ~ row_dNdt r > 1e-6 /\
    has_tag "WHITE_HOLE_BURST" (row_anomaly r) = false)) /\
  (forall sK, LVE.run_cycles p K g = inr sK ->
     nth_error (LVE.log sK) i = Some r ->
     (has_tag "DCE_FLUX_ANOMALY" (row_anomaly r) = true <->
      row_dNdt r > 1e-6) /\
     (row_anomaly r = ""%string <->
      ~ row_dNdt r > 1e-6 /\
      has_tag "WHITE_HOLE_BURST" (row_anomaly r) = false)).
Proof.
  intros (_ & _ & _ & HN). split.
  - intro Hr.
    destruct (run100k_row_columns p HN K g i r Hr) as (_ & _ & _ & _ & ->).
    destruct (Rgt_dec _ _) as [Hgt|Hngt], (Rle_dec _ _);
      (split; split); cbn; intros; try tauto; try discriminate;
      try (split; [assumption | reflexivity]);
      try (match goal with H : _ /\ _ |- _ => destruct H end;
           try contradiction; discriminate).
  - intros sK HK Hr.
    destruct (run_row_columns p HN K g sK i r HK Hr)
      as (s & s' & _ & _ & _ & _ & _ & _ & _ & ->).
    destruct (Rgt_dec _ _) as [Hgt|Hngt], (lve_burst p s);
      (split; split); cbn; intros; try tauto; try discriminate;
      try (split; [assumption | reflexivity]);
      try (match goal with H : _ /\ _ |- _ => destruct H end;
           try contradiction; discriminate).
Qed.

Lemma flux_tag_iff_witness :
  exists r,
    nth_error (LVE100k.log
                 (LVE100k.run_cycles (H := lcg_random) coarse_params 4 7%Z))
              0 = Some r /\
    (has_tag "DCE_ANOMALY" (row_anomaly r) = true <-> row_dNdt r > 1e-6).
Proof.
  assert (0 <= N_MAX coarse_params)%Z as HN by (simpl; lia).
  destruct (nth_error (LVE100k.log
              (LVE100k.run_cycles (H := lcg_random) coarse_params 4 7%Z)) 0)
    as [r|] eqn:E.
  - exists r. split; [reflexivity|].
    exact (proj1 (proj1 (flux_tag_iff (H := lcg_random) coarse_params 7%Z
                           4 0 r coarse_params_ok) E)).
  - apply nth_error_None in E.
    rewrite (run100k_log_length (H := lcg_random) coarse_params HN 4 7%Z) in E.
    lia.
Defined.

(** X18. In latent_vacuum_engine.py (core below [M_initial]) the mass
    never leaves the band between [M_PLANCK_CORE - dt / (15360 pi
    M_PLANCK_CORE^2)] and [M_initial]: a step from above the core
    undershoots it by less than the largest decrement, and a mass at or
    below the core no longer moves. *)
Theorem latch_mass_band `{NumpyRandom} (p : Params) (g : rng) (k : nat)
    (s : LVE.State) :
  params_ok p -> M_PLANCK_CORE p < M_initial p ->
  LVE.run_cycles p k g = inr s ->
  M_PLANCK_CORE p - dt p / (15360 * PI * M_PLANCK_CORE p ^ 2) < LVE.M s
    <= M_initial p.
Proof.
  intros Hp H0. pose proof Hp as (Hm0 & Hc & Hd & HN).
  assert (0 < dt p / (15360 * PI * M_PLANCK_CORE p ^ 2)) as Hdec
    by (apply Rdiv_lt_0_compat; [exact Hd | apply evap_den_pos; lra]).
  revert s. induction k as [|k IH]; intros s Hs.
  - injection Hs as <-. cbn [LVE.M LVE.init]. lra.
  - destruct (run_cycles_step p HN k g s Hs) as (s0 & row & Hs0 & Hcyc).
    specialize (IH s0 Hs0). rewrite (lc_M _ _ _ _ _ Hcyc).
    destruct (lve_burst p s0); [lra|].
    pose proof (post_step_le p (LVE.M s0) Hc Hd) as Hle.
    destruct (Rle_lt_dec (LVE.M s0) (M_PLANCK_CORE p)) as [Hfro|Habove].
    + unfold post_step. rewrite update_mass_frozen by exact Hfro. lra.
    + pose proof (decay_step_bound p Hp (LVE.M s0) Habove). lra.
Qed.

Lemma latch_mass_band_witness :
  exists s,
    LVE.run_cycles (H := lcg_random) coarse_params 3 42%Z = inr s /\
    M_PLANCK_CORE coarse_params
      - dt coarse_params / (15360 * PI * M_PLANCK_CORE coarse_params ^ 2)
      < LVE.M s <= M_initial coarse_params.
Proof.
  assert (0 <= N_MAX coarse_params)%Z as HN by (simpl; lia).
  destruct (run_cycles_total (H := lcg_random) coarse_params HN 3 42%Z)
    as [s Hs].
  exists s. split; [exact Hs|].
  apply (latch_mass_band (H := lcg_random) coarse_params 42%Z 3 s
           coarse_params_ok); [simpl; lra | exact Hs].
Defined.
